(** * Terrain-aware placement engine of the map maker

    A shallow embedding of [analyzeTerrainForPlacement] and
    [findOptimalPlacement] from [src/components/MapMakerDashboard.tsx].

    JavaScript numbers are idealised as exact rationals ([Q]), so rounding
    of doubles is not modelled; pixel channels, grid coordinates and the
    integer map dimensions are [Z].  [Math.random] is an explicit stream of
    draws indexed by a cursor that every draw advances.  A comparison
    [Math.sqrt(s) < r] is decided on the squares.

    Where a property turns on such a comparison or on a quotient, it is
    stated with a margin (squared distance 6399 or 6401 for the distance 80,
    143 or 145 for the distance 12, a thousandth of a unit for a position),
    so that it does not depend on how a double rounds at the boundary.

    The engine is given twice: as functions on values, which the properties
    of its results are about, and as operations on a store of objects
    ([Store]), which say what a run creates and what it leaves alone; the two
    are proved to compute the same. *)

From Stdlib Require Import ZArith QArith Lqa Lia List Bool String.
From Stdlib Require Import Sorted Permutation FinFun.
From Stdlib Require Import NArith Ascii DecimalString DecimalN.
Import ListNotations.

Open Scope Z_scope.
Open Scope Q_scope.

(** ** Numbers *)

(** [a < b] on numbers, as a boolean. *)
Definition Qltb (a b : Q) : bool := negb (Qle_bool b a).

Definition Math_max (a b : Q) : Q := if Qle_bool a b then b else a.
Definition Math_min (a b : Q) : Q := if Qle_bool a b then a else b.

(** [Math.sqrt(s) < r] for a sum of squares [s]: the root is below [r]
    exactly when [r] is positive and [s] is below its square. *)
Definition sqrt_lt (s r : Q) : bool := Qltb 0 r && Qltb s (r * r).

(** [(ax - bx) ** 2 + (ay - by) ** 2], the argument of [Math.sqrt]. *)
Definition distanceSq (ax ay bx by_ : Q) : Q :=
  (ax - bx) * (ax - bx) + (ay - by_) * (ay - by_).

(** ** The random source

    A computation reads draws from a stream at a cursor and returns the
    advanced cursor with its result. *)

Definition Rand (A : Type) : Type := nat -> A * nat.

Definition ret {A : Type} (a : A) : Rand A := fun c => (a, c).

Definition bind {A B : Type} (m : Rand A) (k : A -> Rand B) : Rand B :=
  fun c => let (a, c') := m c in k a c'.

Notation "x <- m ;; k" := (bind m (fun x => k))
  (at level 61, m at next level, right associativity).

(** [for (const i of l) acc = body(i, acc)] *)
Fixpoint forEach {S : Type} (l : list Z) (body : Z -> S -> Rand S) (acc : S)
  : Rand S :=
  match l with
  | [] => ret acc
  | i :: l' => acc' <- body i acc ;; forEach l' body acc'
  end.

(** ** Data *)

Record MapSettings : Type := { width : Z; height : Z }.

(** [imageData.data]: four bytes per pixel, rows first. *)
Definition Uint8ClampedArray : Type := list Z.

(** [data[i]]; [None] is JavaScript's [undefined]. *)
Definition at_ (data : Uint8ClampedArray) (i : Z) : option Z :=
  if (i <? 0)%Z then None else nth_error data (Z.to_nat i).

Record SuitabilityPoint : Type := { s_x : Z; s_y : Z; score : Q }.
Record AvoidRegion : Type := { a_x : Z; a_y : Z; radius : Q }.

Record TerrainAnalysis : Type :=
  { suitableAreas : list SuitabilityPoint; avoidAreas : list AvoidRegion }.

(** The fields of [MapLocation] the engine reads. *)
Record MapLocation : Type := { loc_x : Q; loc_y : Q; loc_type : string }.

Record Placement : Type := { p_x : Q; p_y : Q }.

(** ** Terrain analyzer *)

Definition sampleSize : Z := 20.

(** The values [i] takes in
    [for (let i = sampleSize; i < limit; i += sampleSize)]. *)
Fixpoint sampleLoop (fuel : nat) (i limit : Z) : list Z :=
  match fuel with
  | O => []
  | S fuel' =>
      if (i <? limit)%Z then i :: sampleLoop fuel' (i + sampleSize)%Z limit
      else []
  end.

Definition sampleAxis (extent : Z) : list Z :=
  sampleLoop (Z.to_nat extent) sampleSize (extent - sampleSize)%Z.

(** What one sample is classified as. *)
Record Traits : Type :=
  { isWater : bool; isVeryDark : bool; isVeryBright : bool; isModerate : bool }.

Definition brightnessOf (r g b : Z) : Q := inject_Z (r + g + b) / 3.

Definition traitsOf (r g b : Z) : Traits :=
  let brightness := brightnessOf r g b in
  {| isWater := (r + 30 <? b)%Z && (g + 30 <? b)%Z;
     isVeryDark := Qltb brightness 50;
     isVeryBright := Qltb 200 brightness;
     isModerate := Qle_bool 80 brightness && Qle_bool brightness 160 |}.

(** A channel read past the array is [undefined]; every comparison with it
    or with the [NaN] brightness made from it is false. *)
Definition noTraits : Traits :=
  {| isWater := false; isVeryDark := false; isVeryBright := false;
     isModerate := false |}.

Definition classify (data : Uint8ClampedArray) (index : Z) : Traits :=
  match at_ data index, at_ data (index + 1), at_ data (index + 2) with
  | Some r, Some g, Some b => traitsOf r g b
  | _, _, _ => noTraits
  end.

(** The score of a sample before the random jitter. *)
Definition baseScore (t : Traits) : Q :=
  let score := 100 in
  let score :=
    if isWater t then score - 80
    else if isVeryDark t then score - 60
    else if isVeryBright t then score - 20
    else score in
  let score := if isModerate t then score + 30 else score in
  score.

Definition emptyAnalysis : TerrainAnalysis :=
  {| suitableAreas := []; avoidAreas := [] |}.

(** [suitableAreas.sort((a, b) => b.score - a.score)]: the stable sort by
    descending score. *)
Fixpoint insertByScore (p : SuitabilityPoint) (l : list SuitabilityPoint)
  : list SuitabilityPoint :=
  match l with
  | [] => [p]
  | q :: l' =>
      if Qle_bool (score q) (score p) then p :: q :: l'
      else q :: insertByScore p l'
  end.

Definition sortByScore (l : list SuitabilityPoint) : list SuitabilityPoint :=
  fold_right insertByScore [] l.

Section Engine.

Variable random : nat -> Q.

(** [Math.random()] *)
Definition Math_random : Rand Q := fun c => (random c, S c).

(** The body of the two sampling loops at the point [(x, y)]. *)
Definition samplePoint (data : Uint8ClampedArray) (w x y : Z)
    (acc : TerrainAnalysis) : Rand TerrainAnalysis :=
  let index := ((y * w + x) * 4)%Z in
  let t := classify data index in
  let avoid :=
    if isWater t
    then avoidAreas acc ++ [{| a_x := x; a_y := y; radius := 30 |}]
    else avoidAreas acc in
  rnd <- Math_random ;;
  let score := baseScore t + (rnd * 20 - 10) in
  let suitable :=
    if Qltb 40 score
    then suitableAreas acc ++ [{| s_x := x; s_y := y; score := score |}]
    else suitableAreas acc in
  ret {| suitableAreas := suitable; avoidAreas := avoid |}.

(** [terrainImage] is [None] when no terrain image is loaded (or no canvas
    context is available), and otherwise the bytes [getImageData] returns for
    the image drawn over the whole map. *)
Definition analyzeTerrainForPlacement
    (terrainImage : option Uint8ClampedArray) (mapSettings : MapSettings)
  : Rand TerrainAnalysis :=
  match terrainImage with
  | None => ret emptyAnalysis
  | Some data =>
      acc <- forEach (sampleAxis (width mapSettings))
               (fun x => forEach (sampleAxis (height mapSettings))
                           (fun y => samplePoint data (width mapSettings) x y))
               emptyAnalysis ;;
      ret {| suitableAreas := sortByScore (suitableAreas acc);
             avoidAreas := avoidAreas acc |}
  end.

(** ** Placement selector *)

(** [existingLocations.some(loc => Math.sqrt(...) < 80)] *)
Definition tooClose (existingLocations : list MapLocation) (x y : Q) : bool :=
  existsb (fun loc => sqrt_lt (distanceSq (loc_x loc) (loc_y loc) x y) 80)
          existingLocations.

(** [avoidAreas.some(avoid => Math.sqrt(...) < avoid.radius)] *)
Definition inAvoidArea (avoid : list AvoidRegion) (x y : Q) : bool :=
  existsb (fun a => sqrt_lt (distanceSq (inject_Z (a_x a)) (inject_Z (a_y a)) x y)
                            (radius a))
          avoid.

(** [{ x: Math.random() * (width - 100) + 50,
       y: Math.random() * (height - 100) + 50 }] *)
Definition randomPlacement (mapSettings : MapSettings) : Rand Placement :=
  rx <- Math_random ;;
  ry <- Math_random ;;
  ret {| p_x := rx * inject_Z (width mapSettings - 100) + 50;
         p_y := ry * inject_Z (height mapSettings - 100) + 50 |}.

(** [while (attempts < 50) { ... attempts++ }], by the number of attempts
    left; [None] when the loop runs out without a return. *)
Fixpoint randomAttempts (remaining : nat) (existingLocations : list MapLocation)
    (mapSettings : MapSettings) : Rand (option Placement) :=
  match remaining with
  | O => ret None
  | S remaining' =>
      p <- randomPlacement mapSettings ;;
      if negb (tooClose existingLocations (p_x p) (p_y p)) then ret (Some p)
      else randomAttempts remaining' existingLocations mapSettings
  end.

Definition typeBonus (locationType : string) (score : Q) : Q :=
  let typeBonus := 0 in
  let typeBonus :=
    if (locationType =? "landmark")%string && Qltb 80 score
    then 20 else typeBonus in
  let typeBonus :=
    if (locationType =? "shop")%string && Qltb 60 score && Qltb score 90
    then 15 else typeBonus in
  let typeBonus :=
    if (locationType =? "mission")%string && Qltb 70 score
    then 10 else typeBonus in
  let typeBonus :=
    if (locationType =? "resource")%string && Qltb 50 score
    then 25 else typeBonus in
  let typeBonus :=
    if (locationType =? "npc")%string && Qltb 60 score
    then 15 else typeBonus in
  typeBonus.

(** The test [!tooClose && !inAvoidArea && finalScore > 50] on one area. *)
Definition qualifies (locationType : string)
    (existingLocations : list MapLocation) (avoid : list AvoidRegion)
    (area : SuitabilityPoint) : bool :=
  let finalScore := score area + typeBonus locationType (score area) in
  negb (tooClose existingLocations (inject_Z (s_x area)) (inject_Z (s_y area)))
  && negb (inAvoidArea avoid (inject_Z (s_x area)) (inject_Z (s_y area)))
  && Qltb 50 finalScore.

(** The point returned for an accepted area: jitter, then clamp. *)
Definition jitteredPlacement (mapSettings : MapSettings)
    (area : SuitabilityPoint) : Rand Placement :=
  r1 <- Math_random ;;
  r2 <- Math_random ;;
  let offsetX := (r1 - (1 # 2)) * 40 in
  let offsetY := (r2 - (1 # 2)) * 40 in
  ret {| p_x := Math_max 50 (Math_min (inject_Z (width mapSettings - 50))
                                      (inject_Z (s_x area) + offsetX));
         p_y := Math_max 50 (Math_min (inject_Z (height mapSettings - 50))
                                      (inject_Z (s_y area) + offsetY)) |}.

(** [for (const area of suitableAreas) { ... }]; [None] when the loop ends
    without a return. *)
Fixpoint terrainSearch (areas : list SuitabilityPoint) (locationType : string)
    (existingLocations : list MapLocation) (avoid : list AvoidRegion)
    (mapSettings : MapSettings) : Rand (option Placement) :=
  match areas with
  | [] => ret None
  | area :: rest =>
      if qualifies locationType existingLocations avoid area
      then p <- jitteredPlacement mapSettings area ;; ret (Some p)
      else terrainSearch rest locationType existingLocations avoid mapSettings
  end.

Definition findOptimalPlacement (locationType : string)
    (existingLocations : list MapLocation) (terrainAnalysis : TerrainAnalysis)
    (mapSettings : MapSettings) : Rand Placement :=
  if (List.length (suitableAreas terrainAnalysis) =? 0)%nat then
    found <- randomAttempts 50 existingLocations mapSettings ;;
    match found with
    | Some p => ret p
    | None => randomPlacement mapSettings
    end
  else
    found <- terrainSearch (suitableAreas terrainAnalysis) locationType
               existingLocations (avoidAreas terrainAnalysis) mapSettings ;;
    match found with
    | Some p => ret p
    | None => randomPlacement mapSettings
    end.

End Engine.

(** ** Vocabulary of the properties *)

(** Every draw lies in [[0, 1)], as [Math.random] promises. *)
Definition unitStream (random : nat -> Q) : Prop :=
  forall n, 0 <= random n /\ random n < 1.

(** The sample points in the order the two loops visit them. *)
Definition gridPoints (mapSettings : MapSettings) : list (Z * Z) :=
  list_prod (sampleAxis (width mapSettings)) (sampleAxis (height mapSettings)).

(** The three colour channels the analyzer reads for the point [p]. *)
Definition pixelAt (data : Uint8ClampedArray) (w : Z) (p : Z * Z)
  : option (Z * Z * Z) :=
  let index := ((snd p * w + fst p) * 4)%Z in
  match at_ data index, at_ data (index + 1), at_ data (index + 2) with
  | Some r, Some g, Some b => Some (r, g, b)
  | _, _, _ => None
  end.

(** Blue exceeds both red and green by more than 30. *)
Definition waterPixel (px : option (Z * Z * Z)) : bool :=
  match px with
  | Some (r, g, b) => (r + 30 <? b)%Z && (g + 30 <? b)%Z
  | None => false
  end.

Definition traitsAt (data : Uint8ClampedArray) (w : Z) (p : Z * Z) : Traits :=
  classify data ((snd p * w + fst p) * 4)%Z.

Definition regionAt (p : Z * Z) : AvoidRegion :=
  {| a_x := fst p; a_y := snd p; radius := 30 |}.

(** The score of the sample at [p] when its jitter is the draw at [c]. *)
Definition jitteredScore (random : nat -> Q) (data : Uint8ClampedArray)
    (w : Z) (p : Z * Z) (c : nat) : Q :=
  baseScore (traitsAt data w p) + (random c * 20 - 10).

(** The points of [pts] kept as suitable, the first drawing at cursor [c]. *)
Fixpoint keptFrom (random : nat -> Q) (data : Uint8ClampedArray) (w : Z)
    (pts : list (Z * Z)) (c : nat) : list SuitabilityPoint :=
  match pts with
  | [] => []
  | p :: pts' =>
      let sc := jitteredScore random data w p c in
      (if Qltb 40 sc then [{| s_x := fst p; s_y := snd p; score := sc |}]
       else [])
      ++ keptFrom random data w pts' (S c)
  end.

(** Every pixel of the [width] by [height] surface is [(r, g, b)]. *)
Definition uniformSurface (data : Uint8ClampedArray) (mapSettings : MapSettings)
    (r g b : Z) : Prop :=
  forall i, (0 <= i < width mapSettings * height mapSettings)%Z ->
    at_ data (4 * i) = Some r /\ at_ data (4 * i + 1) = Some g
    /\ at_ data (4 * i + 2) = Some b.

(** The penalty of a sample as the specification words it: at most one of
    the three, water before very dark before very bright. *)
Definition penaltyOf (t : Traits) : Q :=
  if isWater t then 80
  else if isVeryDark t then 60
  else if isVeryBright t then 20
  else 0.

(** The bonus of a sample as the specification words it: the brightness
    band alone decides. *)
Definition bonusOf (t : Traits) : Q := if isModerate t then 30 else 0.

(** The bonus of a location type as the specification words it: a table by
    type, 0 in every other case. *)
Definition typeBonusTable (locationType : string) (score : Q) : Q :=
  if (locationType =? "landmark")%string then
    if Qltb 80 score then 20 else 0
  else if (locationType =? "shop")%string then
    if Qltb 60 score && Qltb score 90 then 15 else 0
  else if (locationType =? "mission")%string then
    if Qltb 70 score then 10 else 0
  else if (locationType =? "resource")%string then
    if Qltb 50 score then 25 else 0
  else if (locationType =? "npc")%string then
    if Qltb 60 score then 15 else 0
  else 0.

(** Euclidean distance at least 80 to every existing location. *)
Definition farFromAll (existingLocations : list MapLocation) (x y : Q) : Prop :=
  Forall (fun loc => 6400 <= distanceSq (loc_x loc) (loc_y loc) x y)
         existingLocations.

(** Outside the open disc of every avoid region. *)
Definition outsideAllDiscs (avoid : list AvoidRegion) (x y : Q) : Prop :=
  Forall (fun a =>
            radius a <= 0 \/
            radius a * radius a
            <= distanceSq (inject_Z (a_x a)) (inject_Z (a_y a)) x y)
         avoid.

(** Inside the map minus the margin of 50. *)
Definition inBounds (mapSettings : MapSettings) (p : Placement) : Prop :=
  (50 <= p_x p /\ p_x p <= inject_Z (width mapSettings - 50))
  /\ (50 <= p_y p /\ p_y p <= inject_Z (height mapSettings - 50)).

(** [v] clamped into [[50, hi]]. *)
Definition clamp (hi v : Q) : Q := Math_max 50 (Math_min hi v).

(** The point made of the draws at cursors [k] and [k + 1]:
    [{ x: Math.random() * (width - 100) + 50,
       y: Math.random() * (height - 100) + 50 }]. *)
Definition drawnPlacement (random : nat -> Q) (mapSettings : MapSettings)
    (k : nat) : Placement :=
  {| p_x := random k * inject_Z (width mapSettings - 100) + 50;
     p_y := random (S k) * inject_Z (height mapSettings - 100) + 50 |}.

(** The point returned for an accepted area with the draws at cursors [k]
    and [k + 1]: the area moved by [(draw - 0.5) * 40] on each axis and
    clamped into the margin. *)
Definition jitteredPoint (random : nat -> Q) (mapSettings : MapSettings)
    (area : SuitabilityPoint) (k : nat) : Placement :=
  {| p_x := Math_max 50
              (Math_min (inject_Z (width mapSettings - 50))
                        (inject_Z (s_x area) + (random k - (1 # 2)) * 40));
     p_y := Math_max 50
              (Math_min (inject_Z (height mapSettings - 50))
                        (inject_Z (s_y area) + (random (S k) - (1 # 2)) * 40)) |}.

(** The tests below decide closeness with a margin of 1 on the squared
    distance, so that they hold of the exact numbers and of their doubles
    alike. *)

(** Closer than 80 to some existing location, with margin: squared distance
    at most 6399. *)
Definition wellWithin80 (existingLocations : list MapLocation) (x y : Q)
  : bool :=
  existsb (fun loc => Qle_bool (distanceSq (loc_x loc) (loc_y loc) x y) 6399)
          existingLocations.

(** Closer than about 80 to some existing location: squared distance at
    most 6401. *)
Definition nearlyWithin80 (existingLocations : list MapLocation) (x y : Q)
  : bool :=
  existsb (fun loc => Qle_bool (distanceSq (loc_x loc) (loc_y loc) x y) 6401)
          existingLocations.

(** Inside the disc of some avoid region, with margin. *)
Definition wellInsideAvoid (avoid : list AvoidRegion) (x y : Q) : bool :=
  existsb (fun a =>
             Qltb 0 (radius a)
             && Qle_bool
                  (distanceSq (inject_Z (a_x a)) (inject_Z (a_y a)) x y + 1)
                  (radius a * radius a))
          avoid.

(** An area the selector rejects whatever the rounding: its score is at
    most 50, or it is too close to an existing location or inside an avoid
    disc, both with margin. *)
Definition surelyRejected (existingLocations : list MapLocation)
    (avoid : list AvoidRegion) (area : SuitabilityPoint) : bool :=
  Qle_bool (score area) 50
  || wellWithin80 existingLocations
                  (inject_Z (s_x area)) (inject_Z (s_y area))
  || wellInsideAvoid avoid (inject_Z (s_x area)) (inject_Z (s_y area)).

(** Each of the fifty pairs of draws from cursor [c] on gives a point that
    passes [test] against the existing locations. *)
Definition allAttempts (test : list MapLocation -> Q -> Q -> bool)
    (random : nat -> Q) (existingLocations : list MapLocation)
    (mapSettings : MapSettings) (c : nat) : bool :=
  forallb (fun k =>
             let p := drawnPlacement random mapSettings (c + 2 * k)%nat in
             test existingLocations (p_x p) (p_y p))
          (seq 0 50).

(** Score order of the sorted output: best first. *)
Definition scoreGe (a b : SuitabilityPoint) : Prop := score b <= score a.

(** ** Worked inputs *)

Definition rnd_const (q : Q) : nat -> Q := fun _ => q.

(** The stream that yields [q] for its first [n] draws and [q'] after. *)
Definition rnd_prefix (n : nat) (q q' : Q) : nat -> Q :=
  fun k => if (k <? n)%nat then q else q'.

(** A [w] by [h] surface with every pixel [(r, g, b, 255)]. *)
Definition uniformData (w h : nat) (r g b : Z) : Uint8ClampedArray :=
  List.concat (repeat [r; g; b; 255%Z] (w * h)).

(** One candidate at (100, 100) with score 90, an existing location exactly
    80 away at (180, 100), and an avoid disc of radius 30 whose centre
    (130, 100) is exactly 30 away. *)
Definition tightExisting : list MapLocation :=
  [{| loc_x := 180; loc_y := 100; loc_type := "shop" |}].

Definition tightAnalysis : TerrainAnalysis :=
  {| suitableAreas := [{| s_x := 100; s_y := 100; score := 90 |}];
     avoidAreas := [{| a_x := 130; a_y := 100; radius := 30 |}] |}.

Definition defaultSettings : MapSettings := {| width := 1200; height := 800 |}.

Example sampleAxis_100 : sampleAxis 100 = [20; 40; 60]%Z.
Proof. reflexivity. Qed.

Example sampleAxis_40 : sampleAxis 40 = [].
Proof. reflexivity. Qed.

Example analyze_none :
  fst (analyzeTerrainForPlacement (rnd_const (1 # 2)) None
         {| width := 1200; height := 800 |} 0%nat) = emptyAnalysis.
Proof. reflexivity. Qed.

(** * The two operations over a store of objects

    JavaScript arrays and object literals live in a store and are passed by
    reference.  Here the two operations run on such a store: [push] and
    [sort] update an array where it stands, an object or array literal takes
    a new address, and the arguments are addresses of objects that the caller
    holds.  The arguments are taken to have the shape their TypeScript types
    give them; an address that holds an object of another shape reads as an
    empty array or buffer. *)

Module Store.

Definition addr : Type := nat.

Inductive Object : Type :=
| Bytes (data : Uint8ClampedArray)
| Array (elems : list addr)
| Suitability (p : SuitabilityPoint)
| Avoid (a : AvoidRegion)
| Location (l : MapLocation)
| Analysis (suitableAreas avoidAreas : addr)
| Point (p : Placement).

(** The object at address [a] is the [a]-th of the store. *)
Definition Heap : Type := list Object.

(** [h[a] = o] for an address in use. *)
Fixpoint write (a : addr) (o : Object) (h : Heap) : Heap :=
  match h, a with
  | [], _ => []
  | _ :: h', O => o :: h'
  | x :: h', S a' => x :: write a' o h'
  end.

(** Every object of the store [h] stands unchanged in [h']. *)
Definition unchanged (h h' : Heap) : Prop :=
  forall a o, nth_error h a = Some o -> nth_error h' a = Some o.

(** A computation on the store and the cursor of the random source. *)
Definition Cmd (A : Type) : Type := Heap -> nat -> A * Heap * nat.

Definition valueOf {A : Type} (r : A * Heap * nat) : A := fst (fst r).
Definition heapOf {A : Type} (r : A * Heap * nat) : Heap := snd (fst r).
Definition cursorOf {A : Type} (r : A * Heap * nat) : nat := snd r.

Definition retS {A : Type} (a : A) : Cmd A := fun h c => (a, h, c).

Definition bindS {A B : Type} (m : Cmd A) (k : A -> Cmd B) : Cmd B :=
  fun h c => let '(a, h', c') := m h c in k a h' c'.

Notation "x <-- m ;; k" := (bindS m (fun x => k))
  (at level 61, m at next level, right associativity).

(** An object or array literal: a new object at the next free address. *)
Definition alloc (o : Object) : Cmd addr :=
  fun h c => (List.length h, h ++ [o], c).

(** [arr.push(v)] *)
Definition push (arr v : addr) : Cmd unit :=
  fun h c =>
    match nth_error h arr with
    | Some (Array elems) => (tt, write arr (Array (elems ++ [v])) h, c)
    | _ => (tt, h, c)
    end.

Definition elements (h : Heap) (arr : addr) : list addr :=
  match nth_error h arr with
  | Some (Array elems) => elems
  | _ => []
  end.

Definition bytesAt (h : Heap) (d : addr) : Uint8ClampedArray :=
  match nth_error h d with
  | Some (Bytes data) => data
  | _ => []
  end.

Definition scoreAt (h : Heap) (a : addr) : Q :=
  match nth_error h a with
  | Some (Suitability p) => score p
  | _ => 0
  end.

(** The stable sort by descending [score] of the objects the addresses
    point to. *)
Fixpoint insertAddr (h : Heap) (a : addr) (l : list addr) : list addr :=
  match l with
  | [] => [a]
  | b :: l' =>
      if Qle_bool (scoreAt h b) (scoreAt h a) then a :: b :: l'
      else b :: insertAddr h a l'
  end.

Definition sortAddrs (h : Heap) (l : list addr) : list addr :=
  fold_right (insertAddr h) [] l.

(** [arr.sort((a, b) => b.score - a.score)]: the array is sorted where it
    stands. *)
Definition sortInPlace (arr : addr) : Cmd unit :=
  fun h c =>
    match nth_error h arr with
    | Some (Array elems) => (tt, write arr (Array (sortAddrs h elems)) h, c)
    | _ => (tt, h, c)
    end.

(** [for (const i of l) body(i)] *)
Fixpoint forEachS (l : list Z) (body : Z -> Cmd unit) : Cmd unit :=
  match l with
  | [] => retS tt
  | i :: l' => _ <-- body i ;; forEachS l' body
  end.

(** The arrays of an analysis object, read back as lists of values. *)
Definition suitableAt (h : Heap) (arr : addr) : list SuitabilityPoint :=
  flat_map (fun a => match nth_error h a with
                     | Some (Suitability p) => [p]
                     | _ => []
                     end) (elements h arr).

Definition avoidAt (h : Heap) (arr : addr) : list AvoidRegion :=
  flat_map (fun a => match nth_error h a with
                     | Some (Avoid r) => [r]
                     | _ => []
                     end) (elements h arr).

Definition locationsAt (h : Heap) (arr : addr) : list MapLocation :=
  flat_map (fun a => match nth_error h a with
                     | Some (Location l) => [l]
                     | _ => []
                     end) (elements h arr).

Definition analysisAt (h : Heap) (a : addr) : TerrainAnalysis :=
  match nth_error h a with
  | Some (Analysis suitable avoid) =>
      {| suitableAreas := suitableAt h suitable;
         avoidAreas := avoidAt h avoid |}
  | _ => emptyAnalysis
  end.

Section Operations.

Variable random : nat -> Q.

(** [Math.random()] *)
Definition Math_randomS : Cmd Q := fun h c => (random c, h, S c).

(** The body of the two sampling loops at [(x, y)]: [d] is the pixel
    buffer, [suitableAreas] and [avoidAreas] the two arrays of the run. *)
Definition samplePointS (d : addr) (w x y : Z) (suitableAreas avoidAreas : addr)
  : Cmd unit :=
  fun h c =>
    let index := ((y * w + x) * 4)%Z in
    let t := classify (bytesAt h d) index in
    (_ <-- (if isWater t
            then region <-- alloc (Avoid {| a_x := x; a_y := y; radius := 30 |}) ;;
                 push avoidAreas region
            else retS tt) ;;
     rnd <-- Math_randomS ;;
     let score := baseScore t + (rnd * 20 - 10) in
     if Qltb 40 score
     then point <-- alloc (Suitability {| s_x := x; s_y := y; score := score |}) ;;
          push suitableAreas point
     else retS tt) h c.

(** [surface] is the address of the pixel buffer, [None] without a terrain
    image; the result is the address of the object
    [{ suitableAreas, avoidAreas }]. *)
Definition analyzeTerrainForPlacementS (surface : option addr)
    (mapSettings : MapSettings) : Cmd addr :=
  match surface with
  | None =>
      suitableAreas <-- alloc (Array []) ;;
      avoidAreas <-- alloc (Array []) ;;
      alloc (Analysis suitableAreas avoidAreas)
  | Some d =>
      suitableAreas <-- alloc (Array []) ;;
      avoidAreas <-- alloc (Array []) ;;
      _ <-- forEachS (sampleAxis (width mapSettings))
              (fun x => forEachS (sampleAxis (height mapSettings))
                          (fun y => samplePointS d (width mapSettings) x y
                                      suitableAreas avoidAreas)) ;;
      _ <-- sortInPlace suitableAreas ;;
      alloc (Analysis suitableAreas avoidAreas)
  end.

(** [existingLocations] and [terrainAnalysis] are addresses; the selector
    reads the arrays behind them and returns the address of a new object
    [{ x, y }]. *)
Definition findOptimalPlacementS (locationType : string)
    (existingLocations terrainAnalysis : addr) (mapSettings : MapSettings)
  : Cmd addr :=
  fun h c =>
    let (placement, c') :=
      findOptimalPlacement random locationType
        (locationsAt h existingLocations) (analysisAt h terrainAnalysis)
        mapSettings c in
    alloc (Point placement) h c'.

End Operations.

End Store.

(** * The dashboard around the engine

    The state of [MapMakerDashboard] and its handlers.  A handler reads the
    state of the render it was created in and applies its updates in order;
    each is a function from that state to the next one, and events are taken
    one at a time, each after the render that follows the one before.  Toasts
    are returned beside the state. *)

Module Dashboard.

(** ** Text *)

(** Free text typed by the user or returned by the generation service, as
    its UTF-16 code units. *)
Definition JsString : Type := list N.

(** The code units [String.prototype.trim] strips: white space and line
    terminators. *)
Definition isWhiteSpace (c : N) : bool :=
  ((9 <=? c) && (c <=? 13) || (c =? 32) || (c =? 160) || (c =? 5760)
   || (8192 <=? c) && (c <=? 8202) || (c =? 8232) || (c =? 8233)
   || (c =? 8239) || (c =? 8287) || (c =? 12288) || (c =? 65279))%N.

Fixpoint trimStart (s : JsString) : JsString :=
  match s with
  | [] => []
  | c :: s' => if isWhiteSpace c then trimStart s' else s
  end.

Definition trimEnd (s : JsString) : JsString := rev (trimStart (rev s)).

Definition trim (s : JsString) : JsString := trimEnd (trimStart s).

(** A string in a boolean position: only the empty string is falsy. *)
Definition truthy (s : JsString) : bool :=
  match s with [] => false | _ :: _ => true end.

Fixpoint startsWith (s prefix : JsString) : bool :=
  match prefix, s with
  | [], _ => true
  | _ :: _, [] => false
  | p :: prefix', c :: s' => (c =? p)%N && startsWith s' prefix'
  end.

(** [s.includes(part)] *)
Fixpoint includes (s part : JsString) : bool :=
  startsWith s part
  || match s with
     | [] => false
     | _ :: s' => includes s' part
     end.

(** A non-negative integer in a template literal: its decimal digits. *)
Definition decimal (n : N) : string :=
  NilEmpty.string_of_uint (N.to_uint n).

(** ** State *)

(** [MapLocation] with the fields the handlers set; [iconUrl] is never set
    and [properties] is always the empty object. *)
Record Location : Type :=
  { l_id : string; l_type : string; l_name : JsString;
    l_description : JsString; l_x : Q; l_y : Q; l_visible : bool }.

(** What the placement engine reads of a location. *)
Definition engineView (l : Location) : MapLocation :=
  {| loc_x := l_x l; loc_y := l_y l; loc_type := l_type l |}.

Record Point : Type := { pt_x : Q; pt_y : Q }.

Record NewLocation : Type :=
  { n_type : string; n_name : JsString; n_description : JsString;
    n_x : Q; n_y : Q }.

(** A terrain image, as the pixel data that drawing it over a map of the
    given size and reading the canvas back yields; [None] when no canvas
    context is available. *)
Definition Image : Type := MapSettings -> option Uint8ClampedArray.

(** The state variables the handlers below read or write.  The others
    ([showLayers], [editMode], [mapDescription], the type distribution, the
    terrain request's flag and url) only drive rendering or the text of the
    generation prompt; of the map settings the width and the height are
    kept. *)
Record State : Type :=
  { mapSettings : MapSettings;
    locations : list Location;
    selectedLocation : option Location;
    isGeneratingLocations : bool;
    terrainImage : option Image;
    zoom : Q;
    panOffset : Point;
    isDragging : bool;
    dragStart : Point;
    searchTerm : JsString;
    filterType : string;
    newLocation : NewLocation;
    isAddingLocation : bool }.

Definition emptyForm : NewLocation :=
  {| n_type := "landmark"; n_name := []; n_description := [];
     n_x := 0; n_y := 0 |}.

Definition initialState : State :=
  {| mapSettings := {| width := 1200; height := 800 |};
     locations := [];
     selectedLocation := None;
     isGeneratingLocations := false;
     terrainImage := None;
     zoom := 1;
     panOffset := {| pt_x := 0; pt_y := 0 |};
     isDragging := false;
     dragStart := {| pt_x := 0; pt_y := 0 |};
     searchTerm := [];
     filterType := "all";
     newLocation := emptyForm;
     isAddingLocation := false |}.

(** The state setters; those the source calls with a function of the
    previous value take one here. *)

Definition setMapSettings (f : MapSettings -> MapSettings) (s : State) : State :=
  {| mapSettings := f (mapSettings s); locations := locations s;
     selectedLocation := selectedLocation s;
     isGeneratingLocations := isGeneratingLocations s;
     terrainImage := terrainImage s; zoom := zoom s;
     panOffset := panOffset s; isDragging := isDragging s;
     dragStart := dragStart s; searchTerm := searchTerm s;
     filterType := filterType s; newLocation := newLocation s;
     isAddingLocation := isAddingLocation s |}.

Definition setLocations (f : list Location -> list Location) (s : State)
  : State :=
  {| mapSettings := mapSettings s; locations := f (locations s);
     selectedLocation := selectedLocation s;
     isGeneratingLocations := isGeneratingLocations s;
     terrainImage := terrainImage s; zoom := zoom s;
     panOffset := panOffset s; isDragging := isDragging s;
     dragStart := dragStart s; searchTerm := searchTerm s;
     filterType := filterType s; newLocation := newLocation s;
     isAddingLocation := isAddingLocation s |}.

Definition setSelectedLocation (v : option Location) (s : State) : State :=
  {| mapSettings := mapSettings s; locations := locations s;
     selectedLocation := v;
     isGeneratingLocations := isGeneratingLocations s;
     terrainImage := terrainImage s; zoom := zoom s;
     panOffset := panOffset s; isDragging := isDragging s;
     dragStart := dragStart s; searchTerm := searchTerm s;
     filterType := filterType s; newLocation := newLocation s;
     isAddingLocation := isAddingLocation s |}.

Definition setIsGeneratingLocations (v : bool) (s : State) : State :=
  {| mapSettings := mapSettings s; locations := locations s;
     selectedLocation := selectedLocation s;
     isGeneratingLocations := v;
     terrainImage := terrainImage s; zoom := zoom s;
     panOffset := panOffset s; isDragging := isDragging s;
     dragStart := dragStart s; searchTerm := searchTerm s;
     filterType := filterType s; newLocation := newLocation s;
     isAddingLocation := isAddingLocation s |}.

Definition setTerrainImage (v : option Image) (s : State) : State :=
  {| mapSettings := mapSettings s; locations := locations s;
     selectedLocation := selectedLocation s;
     isGeneratingLocations := isGeneratingLocations s;
     terrainImage := v; zoom := zoom s;
     panOffset := panOffset s; isDragging := isDragging s;
     dragStart := dragStart s; searchTerm := searchTerm s;
     filterType := filterType s; newLocation := newLocation s;
     isAddingLocation := isAddingLocation s |}.

Definition setZoom (f : Q -> Q) (s : State) : State :=
  {| mapSettings := mapSettings s; locations := locations s;
     selectedLocation := selectedLocation s;
     isGeneratingLocations := isGeneratingLocations s;
     terrainImage := terrainImage s; zoom := f (zoom s);
     panOffset := panOffset s; isDragging := isDragging s;
     dragStart := dragStart s; searchTerm := searchTerm s;
     filterType := filterType s; newLocation := newLocation s;
     isAddingLocation := isAddingLocation s |}.

Definition setPanOffset (f : Point -> Point) (s : State) : State :=
  {| mapSettings := mapSettings s; locations := locations s;
     selectedLocation := selectedLocation s;
     isGeneratingLocations := isGeneratingLocations s;
     terrainImage := terrainImage s; zoom := zoom s;
     panOffset := f (panOffset s); isDragging := isDragging s;
     dragStart := dragStart s; searchTerm := searchTerm s;
     filterType := filterType s; newLocation := newLocation s;
     isAddingLocation := isAddingLocation s |}.

Definition setIsDragging (v : bool) (s : State) : State :=
  {| mapSettings := mapSettings s; locations := locations s;
     selectedLocation := selectedLocation s;
     isGeneratingLocations := isGeneratingLocations s;
     terrainImage := terrainImage s; zoom := zoom s;
     panOffset := panOffset s; isDragging := v;
     dragStart := dragStart s; searchTerm := searchTerm s;
     filterType := filterType s; newLocation := newLocation s;
     isAddingLocation := isAddingLocation s |}.

Definition setDragStart (v : Point) (s : State) : State :=
  {| mapSettings := mapSettings s; locations := locations s;
     selectedLocation := selectedLocation s;
     isGeneratingLocations := isGeneratingLocations s;
     terrainImage := terrainImage s; zoom := zoom s;
     panOffset := panOffset s; isDragging := isDragging s;
     dragStart := v; searchTerm := searchTerm s;
     filterType := filterType s; newLocation := newLocation s;
     isAddingLocation := isAddingLocation s |}.

Definition setSearchTerm (v : JsString) (s : State) : State :=
  {| mapSettings := mapSettings s; locations := locations s;
     selectedLocation := selectedLocation s;
     isGeneratingLocations := isGeneratingLocations s;
     terrainImage := terrainImage s; zoom := zoom s;
     panOffset := panOffset s; isDragging := isDragging s;
     dragStart := dragStart s; searchTerm := v;
     filterType := filterType s; newLocation := newLocation s;
     isAddingLocation := isAddingLocation s |}.

Definition setFilterType (v : string) (s : State) : State :=
  {| mapSettings := mapSettings s; locations := locations s;
     selectedLocation := selectedLocation s;
     isGeneratingLocations := isGeneratingLocations s;
     terrainImage := terrainImage s; zoom := zoom s;
     panOffset := panOffset s; isDragging := isDragging s;
     dragStart := dragStart s; searchTerm := searchTerm s;
     filterType := v; newLocation := newLocation s;
     isAddingLocation := isAddingLocation s |}.

Definition setNewLocation (f : NewLocation -> NewLocation) (s : State)
  : State :=
  {| mapSettings := mapSettings s; locations := locations s;
     selectedLocation := selectedLocation s;
     isGeneratingLocations := isGeneratingLocations s;
     terrainImage := terrainImage s; zoom := zoom s;
     panOffset := panOffset s; isDragging := isDragging s;
     dragStart := dragStart s; searchTerm := searchTerm s;
     filterType := filterType s; newLocation := f (newLocation s);
     isAddingLocation := isAddingLocation s |}.

Definition setIsAddingLocation (v : bool) (s : State) : State :=
  {| mapSettings := mapSettings s; locations := locations s;
     selectedLocation := selectedLocation s;
     isGeneratingLocations := isGeneratingLocations s;
     terrainImage := terrainImage s; zoom := zoom s;
     panOffset := panOffset s; isDragging := isDragging s;
     dragStart := dragStart s; searchTerm := searchTerm s;
     filterType := filterType s; newLocation := newLocation s;
     isAddingLocation := v |}.

Inductive Toast : Type :=
| toast_success (message : string)
| toast_error (message : string).

(** ** Canvas interaction *)

Record MouseEvent : Type := { clientX : Q; clientY : Q }.

(** [canvas.getBoundingClientRect()], the fields read. *)
Record DOMRect : Type := { rect_left : Q; rect_top : Q }.

(** [Math.sqrt(s) <= r] for a sum of squares [s], decided on the squares. *)
Definition sqrt_le (s r : Q) : bool := Qle_bool 0 r && Qle_bool s (r * r).


(** The test of [locations.find] in [handleCanvasClick]. *)
Definition hit (x y : Q) (location : Location) : bool :=
  sqrt_le (distanceSq (l_x location) (l_y location) x y) 12
  && l_visible location.

(** [canvas] is [None] when the canvas is not mounted. *)
Definition handleCanvasClick (canvas : option DOMRect) (event : MouseEvent)
    (s : State) : State :=
  match canvas with
  | None => s
  | Some rect =>
      let x := (clientX event - rect_left rect - pt_x (panOffset s) * zoom s)
               / zoom s in
      let y := (clientY event - rect_top rect - pt_y (panOffset s) * zoom s)
               / zoom s in
      if isAddingLocation s then
        setNewLocation
          (fun prev => {| n_type := n_type prev; n_name := n_name prev;
                          n_description := n_description prev;
                          n_x := x; n_y := y |}) s
      else
        let clickedLocation := find (hit x y) (locations s) in
        setSelectedLocation clickedLocation s
  end.

Definition handleMouseDown (event : MouseEvent) (s : State) : State :=
  if isAddingLocation s then s
  else setDragStart {| pt_x := clientX event; pt_y := clientY event |}
         (setIsDragging true s).

(** The handler reads [isDragging], [dragStart] and [zoom] from the render
    it was created in; [s] is that render's state, so consecutive events are
    taken to be handled one render apart. *)
Definition handleMouseMove (event : MouseEvent) (s : State) : State :=
  if negb (isDragging s) then s
  else
    let deltaX := clientX event - pt_x (dragStart s) in
    let deltaY := clientY event - pt_y (dragStart s) in
    setDragStart {| pt_x := clientX event; pt_y := clientY event |}
      (setPanOffset
         (fun prev => {| pt_x := pt_x prev + deltaX / zoom s;
                         pt_y := pt_y prev + deltaY / zoom s |}) s).

Definition handleMouseUp (s : State) : State := setIsDragging false s.

(** The zoom buttons. *)
Definition zoomIn (s : State) : State :=
  setZoom (fun prev => Math_min (prev + (1 # 10)) 3) s.

Definition zoomOut (s : State) : State :=
  setZoom (fun prev => Math_max (prev - (1 # 10)) (1 # 10)) s.

Definition resetView (s : State) : State :=
  setPanOffset (fun _ => {| pt_x := 0; pt_y := 0 |}) (setZoom (fun _ => 1) s).

(** The width and height inputs: [parseInt(value) || fallback], where
    [parsed] is the integer [parseInt] read, [None] for [NaN]. *)
Definition parsedOr (parsed : option Z) (fallback : Z) : Z :=
  match parsed with
  | Some n => if (n =? 0)%Z then fallback else n
  | None => fallback
  end.

Definition setWidth (parsed : option Z) (s : State) : State :=
  setMapSettings
    (fun prev => {| width := parsedOr parsed 1200; height := height prev |}) s.

Definition setHeight (parsed : option Z) (s : State) : State :=
  setMapSettings
    (fun prev => {| width := width prev; height := parsedOr parsed 800 |}) s.

(** ** Editing the locations *)

(** [now] is the reading of [Date.now()]. *)
Definition addLocation (now : N) (s : State) : State * Toast :=
  if negb (truthy (trim (n_name (newLocation s)))) then
    (s, toast_error "Please enter a location name")
  else
    let location :=
      {| l_id := "location-" ++ decimal now;
         l_type := n_type (newLocation s);
         l_name := n_name (newLocation s);
         l_description := n_description (newLocation s);
         l_x := n_x (newLocation s);
         l_y := n_y (newLocation s);
         l_visible := true |} in
    (setIsAddingLocation false
       (setNewLocation (fun _ => emptyForm)
          (setLocations (fun prev => prev ++ [location]) s)),
     toast_success "Location added successfully!").

Definition deleteLocation (id : string) (s : State) : State * Toast :=
  let s1 :=
    setLocations
      (fun prev => filter (fun loc => negb (l_id loc =? id)%string) prev) s in
  let s2 :=
    match selectedLocation s with
    | Some selected =>
        if (l_id selected =? id)%string then setSelectedLocation None s1
        else s1
    | None => s1
    end in
  (s2, toast_success "Location deleted").

Definition toggleLocationVisibility (id : string) (s : State) : State :=
  setLocations
    (fun prev =>
       map (fun loc =>
              if (l_id loc =? id)%string
              then {| l_id := l_id loc; l_type := l_type loc;
                      l_name := l_name loc;
                      l_description := l_description loc;
                      l_x := l_x loc; l_y := l_y loc;
                      l_visible := negb (l_visible loc) |}
              else loc) prev) s.

(** The Edit Selected button; it is rendered only while a location is
    selected. *)
Definition editSelected (s : State) : State :=
  match selectedLocation s with
  | None => s
  | Some selected =>
      fst (deleteLocation (l_id selected)
             (setIsAddingLocation true
                (setNewLocation
                   (fun _ => {| n_type := l_type selected;
                                n_name := l_name selected;
                                n_description := l_description selected;
                                n_x := l_x selected;
                                n_y := l_y selected |}) s)))
  end.

(** The Clear All button. *)
Definition clearAll (s : State) : State * Toast :=
  (setSelectedLocation None (setLocations (fun _ => []) s),
   toast_success "All locations cleared").

Section Builtins.

(** [String.prototype.toLowerCase], whose case mapping is the platform's. *)
Variable toLowerCase : JsString -> JsString.

Definition matchesSearch (s : State) (location : Location) : bool :=
  includes (toLowerCase (l_name location)) (toLowerCase (searchTerm s))
  || includes (toLowerCase (l_description location))
              (toLowerCase (searchTerm s)).

Definition matchesFilter (s : State) (location : Location) : bool :=
  (filterType s =? "all")%string || (l_type location =? filterType s)%string.

Definition filteredLocations (s : State) : list Location :=
  filter (fun location => matchesSearch s location && matchesFilter s location)
         (locations s).

(** A click on row [i] of the location list selects the location shown
    there. *)
Definition selectListed (i : nat) (s : State) : State :=
  match nth_error (filteredLocations s) i with
  | Some location => setSelectedLocation (Some location) s
  | None => s
  end.

(** ** Generating locations *)

(** One item of the generation service's answer. *)
Record GeneratedItem : Type :=
  { g_type : string; g_name : JsString; g_description : JsString }.

Variable random : nat -> Q.

(** [Date.now()] as read while item [index] of a batch is built. *)
Variable now : nat -> N.

(** [object.locations.forEach((loc, index) => ...)], from item [index] on. *)
Fixpoint placeEach (items : list GeneratedItem) (index : nat)
    (existingLocations newLocations : list Location)
    (terrainAnalysis : TerrainAnalysis) (settings : MapSettings)
  : Rand (list Location) :=
  match items with
  | [] => ret newLocations
  | loc :: rest =>
      placement <- findOptimalPlacement random (g_type loc)
                     (map engineView (existingLocations ++ newLocations))
                     terrainAnalysis settings ;;
      let location :=
        {| l_id := "generated-" ++ decimal (now index) ++ "-"
                   ++ decimal (N.of_nat index);
           l_type := g_type loc;
           l_name := g_name loc;
           l_description := g_description loc;
           l_x := p_x placement;
           l_y := p_y placement;
           l_visible := true |} in
      placeEach rest (S index) existingLocations (newLocations ++ [location])
                terrainAnalysis settings
  end.

(** The pixel data the analyzer reads for the state's terrain image. *)
Definition terrainPixels (s : State) : option Uint8ClampedArray :=
  match terrainImage s with
  | Some image => image (mapSettings s)
  | None => None
  end.

(** [response] is the service's list of locations, [None] when the request
    fails; the state is the one the handler started in, unchanged while the
    request was pending. *)
Definition generateLocations (response : option (list GeneratedItem))
    (s : State) : Rand (State * Toast) :=
  match response with
  | None =>
      ret (setIsGeneratingLocations false s,
           toast_error "Failed to generate locations")
  | Some items =>
      terrainAnalysis <- analyzeTerrainForPlacement random (terrainPixels s)
                           (mapSettings s) ;;
      newLocations <- placeEach items 0 (locations s) [] terrainAnalysis
                        (mapSettings s) ;;
      let terrainText : string :=
        match terrainImage s with
        | Some _ => " with intelligent terrain analysis"%string
        | None => EmptyString
        end in
      ret (setIsGeneratingLocations false
             (setLocations (fun prev => prev ++ newLocations) s),
           toast_success
             ("Generated " ++ decimal (N.of_nat (List.length newLocations))
              ++ " locations" ++ terrainText ++ "!"))
  end.

(** ** The handlers as one transition system

    One action per handler or inline callback.  The arguments of an action
    range over at least what the interface can pass: any id for a deletion,
    any update of the form, any cursor of the random source. *)

Inductive Action : Type :=
| ZoomIn
| ZoomOut
| ResetView
| CanvasClick (canvas : option DOMRect) (event : MouseEvent)
| MouseDown (event : MouseEvent)
| MouseMove (event : MouseEvent)
| MouseUp
| SetWidth (parsed : option Z)
| SetHeight (parsed : option Z)
| TerrainLoaded (image : Image)
| StartAdding
| CancelAdding
| EditForm (f : NewLocation -> NewLocation)
| AddLocation (time : N)
| DeleteLocation (id : string)
| ToggleVisibility (id : string)
| EditSelected
| ClearAll
| SetSearchTerm (v : JsString)
| SetFilterType (v : string)
| SelectListed (i : nat)
| GenerateLocations (response : option (list GeneratedItem)) (cursor : nat).

Definition step (s : State) (a : Action) : State :=
  match a with
  | ZoomIn => zoomIn s
  | ZoomOut => zoomOut s
  | ResetView => resetView s
  | CanvasClick canvas event => handleCanvasClick canvas event s
  | MouseDown event => handleMouseDown event s
  | MouseMove event => handleMouseMove event s
  | MouseUp => handleMouseUp s
  | SetWidth parsed => setWidth parsed s
  | SetHeight parsed => setHeight parsed s
  | TerrainLoaded image => setTerrainImage (Some image) s
  | StartAdding => setIsAddingLocation true s
  | CancelAdding => setIsAddingLocation false s
  | EditForm f => setNewLocation f s
  | AddLocation time => fst (addLocation time s)
  | DeleteLocation id => fst (deleteLocation id s)
  | ToggleVisibility id => toggleLocationVisibility id s
  | EditSelected => editSelected s
  | ClearAll => fst (clearAll s)
  | SetSearchTerm v => setSearchTerm v s
  | SetFilterType v => setFilterType v s
  | SelectListed i => selectListed i s
  | GenerateLocations response cursor =>
      fst (fst (generateLocations response s cursor))
  end.

Definition run (actions : list Action) (s : State) : State :=
  fold_left step actions s.

End Builtins.

End Dashboard.

(** * Properties *)

(** ** Numbers *)

Lemma Qltb_true (a b : Q) : Qltb a b = true <-> a < b.
Proof.
  unfold Qltb. rewrite negb_true_iff.
  split; intro H.
  - apply Qnot_le_lt. intro Hle. apply Qle_bool_iff in Hle. congruence.
  - destruct (Qle_bool b a) eqn:E; [|reflexivity].
    apply Qle_bool_iff in E. exfalso. apply (Qlt_not_le _ _ H E).
Qed.

Lemma Qltb_false (a b : Q) : Qltb a b = false <-> b <= a.
Proof.
  unfold Qltb. rewrite negb_false_iff. apply Qle_bool_iff.
Qed.

Lemma Qle_bool_false (a b : Q) : Qle_bool a b = false <-> b < a.
Proof.
  rewrite <- Qltb_true. unfold Qltb.
  destruct (Qle_bool a b); simpl; split; congruence.
Qed.

Lemma clamp_lower (hi v : Q) : 50 <= clamp hi v.
Proof.
  unfold clamp, Math_max.
  destruct (Qle_bool 50 (Math_min hi v)) eqn:E.
  - now apply Qle_bool_iff.
  - apply Qle_refl.
Qed.

Lemma clamp_upper (hi v : Q) : 50 <= hi -> clamp hi v <= hi.
Proof.
  intro Hhi. unfold clamp, Math_max, Math_min.
  destruct (Qle_bool hi v) eqn:E1.
  - destruct (Qle_bool 50 hi); [apply Qle_refl | exact Hhi].
  - apply Qle_bool_false in E1.
    destruct (Qle_bool 50 v); [now apply Qlt_le_weak | exact Hhi].
Qed.

Lemma sqrt_lt_80 (s : Q) : sqrt_lt s 80 = false <-> 6400 <= s.
Proof.
  unfold sqrt_lt.
  replace (Qltb 0 80) with true by reflexivity. simpl.
  rewrite Qltb_false. split; intro H.
  - eapply Qle_trans; [|exact H]. now compute.
  - eapply Qle_trans; [|exact H]. now compute.
Qed.

Lemma sqrt_lt_outside (s r : Q) :
  sqrt_lt s r = false <-> (r <= 0 \/ r * r <= s).
Proof.
  unfold sqrt_lt. rewrite andb_false_iff, !Qltb_false. tauto.
Qed.

(** ** The sampling grid *)

Lemma sampleLoop_bounds (fuel : nat) (i limit x : Z) :
  In x (sampleLoop fuel i limit) ->
  (i <= x < limit)%Z /\ exists k, (0 <= k)%Z /\ x = (i + sampleSize * k)%Z.
Proof.
  revert i. induction fuel as [|fuel IH]; intros i; cbn [sampleLoop In];
    [tauto|].
  destruct (Z.ltb_spec i limit) as [Hlt|Hge]; cbn [In]; [|tauto].
  intros [<-|Hin].
  - split; [lia|]. exists 0%Z. unfold sampleSize. lia.
  - destruct (IH _ Hin) as [Hb [k [Hk ->]]]. unfold sampleSize in *.
    split; [lia|]. exists (k + 1)%Z. lia.
Qed.

(** With fuel for every step below the limit, the loop visits every
    multiple step: it does not stop early. *)
Lemma sampleLoop_complete (fuel : nat) (i limit k : Z) :
  (limit - i <= Z.of_nat fuel)%Z -> (0 <= k)%Z ->
  (i + sampleSize * k < limit)%Z ->
  In (i + sampleSize * k)%Z (sampleLoop fuel i limit).
Proof.
  unfold sampleSize. intros Hfuel Hk. revert fuel i Hfuel.
  pattern k. apply natlike_ind; [| |exact Hk].
  - intros fuel i Hfuel Hlt. destruct fuel as [|fuel]; [lia|].
    cbn [sampleLoop]. destruct (Z.ltb_spec i limit); [|lia].
    left. lia.
  - intros k' Hk' IH fuel i Hfuel Hlt.
    destruct fuel as [|fuel]; [lia|].
    cbn [sampleLoop]. destruct (Z.ltb_spec i limit); [|lia].
    right. unfold sampleSize.
    replace (i + 20 * Z.succ k')%Z with ((i + 20) + 20 * k')%Z by lia.
    apply IH; lia.
Qed.

Lemma sampleAxis_spec (extent x : Z) :
  In x (sampleAxis extent) <->
  (sampleSize <= x < extent - sampleSize)%Z /\ (x mod sampleSize = 0)%Z.
Proof.
  unfold sampleAxis. split.
  - intro Hin. apply sampleLoop_bounds in Hin.
    destruct Hin as [Hb [k [Hk ->]]]. split; [exact Hb|].
    unfold sampleSize.
    replace (20 + 20 * k)%Z with ((k + 1) * 20)%Z by lia.
    apply Z_mod_mult.
  - unfold sampleSize. intros [Hb Hmod].
    apply Z.mod_divide in Hmod; [|lia]. destruct Hmod as [q Hq].
    replace x with (20 + sampleSize * (q - 1))%Z by (unfold sampleSize; lia).
    apply sampleLoop_complete; unfold sampleSize; lia.
Qed.

Lemma sampleLoop_NoDup (fuel : nat) (i limit : Z) :
  NoDup (sampleLoop fuel i limit).
Proof.
  revert i. induction fuel as [|fuel IH]; intros i; simpl; [constructor|].
  destruct (i <? limit)%Z; [|constructor].
  constructor; [|apply IH].
  intro Hin. apply sampleLoop_bounds in Hin. unfold sampleSize in Hin. lia.
Qed.

Lemma list_prod_NoDup {A B : Type} (l : list A) (l' : list B) :
  NoDup l -> NoDup l' -> NoDup (list_prod l l').
Proof.
  intros Hl Hl'. induction Hl as [|a l Ha Hl IH]; simpl; [constructor|].
  apply NoDup_app.
  - apply Injective_map_NoDup; [|exact Hl'].
    intros x y Hxy. now inversion Hxy.
  - exact IH.
  - intros [a' b'] Hin1 Hin2.
    apply in_map_iff in Hin1. destruct Hin1 as [b0 [Heq _]].
    inversion Heq; subst. apply in_prod_iff in Hin2. tauto.
Qed.

Lemma gridPoints_NoDup (mapSettings : MapSettings) :
  NoDup (gridPoints mapSettings).
Proof.
  apply list_prod_NoDup; apply sampleLoop_NoDup.
Qed.

(** Every sample point reads a pixel that lies on the surface. *)
Lemma gridPoints_on_surface (mapSettings : MapSettings) (p : Z * Z) :
  In p (gridPoints mapSettings) ->
  (0 <= snd p * width mapSettings + fst p
   < width mapSettings * height mapSettings)%Z.
Proof.
  destruct p as [x y]. unfold gridPoints. rewrite in_prod_iff, !sampleAxis_spec.
  unfold sampleSize. simpl. intros [[Hx _] [Hy _]]. nia.
Qed.

(** ** The sort *)

Lemma insertByScore_perm (p : SuitabilityPoint) (l : list SuitabilityPoint) :
  Permutation (insertByScore p l) (p :: l).
Proof.
  induction l as [|q l IH]; simpl; [reflexivity|].
  destruct (Qle_bool (score q) (score p)); [reflexivity|].
  rewrite IH. apply perm_swap.
Qed.

Lemma sortByScore_perm (l : list SuitabilityPoint) :
  Permutation (sortByScore l) l.
Proof.
  induction l as [|p l IH]; simpl; [reflexivity|].
  rewrite insertByScore_perm. now constructor.
Qed.

Lemma sortByScore_length (l : list SuitabilityPoint) :
  List.length (sortByScore l) = List.length l.
Proof. apply Permutation_length, sortByScore_perm. Qed.

Lemma insertByScore_sorted (p : SuitabilityPoint) (l : list SuitabilityPoint) :
  StronglySorted scoreGe l -> StronglySorted scoreGe (insertByScore p l).
Proof.
  induction 1 as [|q l Hs IH Hq]; simpl.
  - constructor; constructor.
  - destruct (Qle_bool (score q) (score p)) eqn:E.
    + apply Qle_bool_iff in E.
      constructor; [constructor; assumption|].
      constructor; [exact E|].
      eapply Forall_impl; [|exact Hq].
      intros r Hr. unfold scoreGe in *. eapply Qle_trans; eassumption.
    + apply Qle_bool_false in E.
      constructor; [exact IH|].
      eapply Permutation_Forall; [symmetry; apply insertByScore_perm|].
      constructor; [|exact Hq].
      unfold scoreGe. now apply Qlt_le_weak.
Qed.

Lemma sortByScore_sorted (l : list SuitabilityPoint) :
  StronglySorted scoreGe (sortByScore l).
Proof.
  induction l as [|p l IH]; simpl; [constructor|].
  now apply insertByScore_sorted.
Qed.

(** ** What the analyzer computes *)

Lemma classify_water (data : Uint8ClampedArray) (w : Z) (p : Z * Z) :
  isWater (traitsAt data w p) = waterPixel (pixelAt data w p).
Proof.
  unfold traitsAt, pixelAt, classify.
  destruct (at_ data ((snd p * w + fst p) * 4)) as [r|]; [|reflexivity].
  destruct (at_ data ((snd p * w + fst p) * 4 + 1)) as [g|]; [|reflexivity].
  destruct (at_ data ((snd p * w + fst p) * 4 + 2)) as [b|]; reflexivity.
Qed.

Lemma uniform_pixelAt (data : Uint8ClampedArray) (mapSettings : MapSettings)
    (r g b : Z) (p : Z * Z) :
  uniformSurface data mapSettings r g b ->
  In p (gridPoints mapSettings) ->
  pixelAt data (width mapSettings) p = Some (r, g, b).
Proof.
  intros Hu Hin. apply gridPoints_on_surface in Hin.
  destruct (Hu _ Hin) as [Hr [Hg Hb]].
  unfold pixelAt.
  replace ((snd p * width mapSettings + fst p) * 4)%Z
    with (4 * (snd p * width mapSettings + fst p))%Z by lia.
  now rewrite Hr, Hg, Hb.
Qed.

Lemma uniform_traitsAt (data : Uint8ClampedArray) (mapSettings : MapSettings)
    (r g b : Z) (p : Z * Z) :
  uniformSurface data mapSettings r g b ->
  In p (gridPoints mapSettings) ->
  traitsAt data (width mapSettings) p = traitsOf r g b.
Proof.
  intros Hu Hin. apply gridPoints_on_surface in Hin.
  destruct (Hu _ Hin) as [Hr [Hg Hb]].
  unfold traitsAt, classify.
  replace ((snd p * width mapSettings + fst p) * 4)%Z
    with (4 * (snd p * width mapSettings + fst p))%Z by lia.
  now rewrite Hr, Hg, Hb.
Qed.

Lemma keptFrom_app (random : nat -> Q) (data : Uint8ClampedArray) (w : Z)
    (l1 l2 : list (Z * Z)) (c : nat) :
  keptFrom random data w (l1 ++ l2) c =
  keptFrom random data w l1 c
  ++ keptFrom random data w l2 (c + List.length l1).
Proof.
  revert c. induction l1 as [|p l1 IH]; intro c; simpl.
  - now rewrite Nat.add_0_r.
  - rewrite IH, <- app_assoc. do 3 f_equal. lia.
Qed.

Section AnalyzerRun.

Variable random : nat -> Q.
Variable data : Uint8ClampedArray.
Variable w : Z.

Let waterAt (p : Z * Z) : bool := isWater (traitsAt data w p).

Lemma samplePoint_run (x y : Z) (acc : TerrainAnalysis) (c : nat) :
  samplePoint random data w x y acc c =
  ({| suitableAreas :=
        suitableAreas acc ++ keptFrom random data w [(x, y)] c;
      avoidAreas :=
        avoidAreas acc ++ map regionAt (filter waterAt [(x, y)]) |},
   S c).
Proof.
  unfold samplePoint, bind, Math_random, ret, waterAt, traitsAt,
    jitteredScore; cbn [keptFrom filter map fst snd].
  unfold jitteredScore, traitsAt; cbn [fst snd].
  destruct (isWater _), (Qltb 40 _); cbn [map app regionAt fst snd];
    rewrite ?app_nil_r; reflexivity.
Qed.

Lemma column_run (x : Z) (ys : list Z) (acc : TerrainAnalysis) (c : nat) :
  forEach ys (fun y => samplePoint random data w x y) acc c =
  ({| suitableAreas :=
        suitableAreas acc ++ keptFrom random data w (map (pair x) ys) c;
      avoidAreas :=
        avoidAreas acc ++ map regionAt (filter waterAt (map (pair x) ys)) |},
   (c + List.length ys)%nat).
Proof.
  revert acc c. induction ys as [|y ys IH]; intros acc c.
  - cbn. rewrite !app_nil_r, Nat.add_0_r. now destruct acc.
  - cbn [forEach]. unfold bind at 1. rewrite samplePoint_run, IH.
    cbn [suitableAreas avoidAreas map List.length].
    change ((x, y) :: map (pair x) ys) with ([(x, y)] ++ map (pair x) ys).
    rewrite keptFrom_app, filter_app, map_app, <- !app_assoc.
    cbn [List.length]. rewrite Nat.add_1_r. f_equal. lia.
Qed.

Lemma grid_run (xs ys : list Z) (acc : TerrainAnalysis) (c : nat) :
  forEach xs (fun x => forEach ys (fun y => samplePoint random data w x y))
          acc c =
  ({| suitableAreas :=
        suitableAreas acc ++ keptFrom random data w (list_prod xs ys) c;
      avoidAreas :=
        avoidAreas acc ++ map regionAt (filter waterAt (list_prod xs ys)) |},
   (c + List.length (list_prod xs ys))%nat).
Proof.
  revert acc c. induction xs as [|x xs IH]; intros acc c.
  - cbn. rewrite !app_nil_r, Nat.add_0_r. now destruct acc.
  - cbn [forEach list_prod]. unfold bind at 1. rewrite column_run, IH.
    cbn [suitableAreas avoidAreas].
    rewrite keptFrom_app, filter_app, map_app, <- !app_assoc.
    rewrite !length_app, !length_map. f_equal. lia.
Qed.

End AnalyzerRun.

(** The analyzer in closed form: the kept points sorted, one region per water
    sample, one draw per sample. *)
Lemma analyze_run (random : nat -> Q) (data : Uint8ClampedArray)
    (mapSettings : MapSettings) (c : nat) :
  analyzeTerrainForPlacement random (Some data) mapSettings c =
  ({| suitableAreas :=
        sortByScore (keptFrom random data (width mapSettings)
                              (gridPoints mapSettings) c);
      avoidAreas :=
        map regionAt
            (filter (fun p => waterPixel (pixelAt data (width mapSettings) p))
                    (gridPoints mapSettings)) |},
   (c + List.length (gridPoints mapSettings))%nat).
Proof.
  unfold analyzeTerrainForPlacement, bind. rewrite grid_run. unfold ret.
  cbn [suitableAreas avoidAreas emptyAnalysis app]. fold (gridPoints mapSettings).
  do 3 f_equal. apply filter_ext. intro p. apply classify_water.
Qed.

Lemma Qltb_ext (a b a' b' : Q) :
  (a < b <-> a' < b') -> Qltb a b = Qltb a' b'.
Proof.
  intro H. destruct (Qltb a b) eqn:E1, (Qltb a' b') eqn:E2; try reflexivity.
  - apply Qltb_true, H, Qltb_true in E1. congruence.
  - apply Qltb_true, H, Qltb_true in E2. congruence.
Qed.

Section KeptPoints.

Variable random : nat -> Q.
Variable data : Uint8ClampedArray.
Variable w : Z.

Lemma keptFrom_all (pts : list (Z * Z)) (c : nat) :
  (forall p k, In p pts -> 40 < jitteredScore random data w p k) ->
  List.length (keptFrom random data w pts c) = List.length pts.
Proof.
  revert c. induction pts as [|p pts IH]; intros c Hall; [reflexivity|].
  cbn [keptFrom].
  destruct (Qltb 40 _) eqn:E.
  - cbn. f_equal. apply IH. intros q k Hq. apply Hall. now right.
  - apply Qltb_false in E. exfalso.
    apply (Qlt_not_le _ _ (Hall p c (or_introl eq_refl)) E).
Qed.

Lemma keptFrom_none (pts : list (Z * Z)) (c : nat) :
  (forall p k, In p pts -> jitteredScore random data w p k <= 40) ->
  keptFrom random data w pts c = [].
Proof.
  revert c. induction pts as [|p pts IH]; intros c Hall; [reflexivity|].
  cbn [keptFrom].
  destruct (Qltb 40 _) eqn:E.
  - apply Qltb_true in E. exfalso.
    apply (Qlt_not_le _ _ E (Hall p c (or_introl eq_refl))).
  - cbn. apply IH. intros q k Hq. apply Hall. now right.
Qed.

End KeptPoints.

Lemma concat_repeat_pixel (a0 a1 a2 a3 : Z) (n j : nat) :
  (j < n)%nat ->
  let l := List.concat (repeat [a0; a1; a2; a3] n) in
  nth_error l (4 * j) = Some a0 /\ nth_error l (4 * j + 1) = Some a1
  /\ nth_error l (4 * j + 2) = Some a2.
Proof.
  revert j. induction n as [|n IH]; intros j Hj; [lia|].
  destruct j as [|j].
  - cbn. auto.
  - replace (4 * S j)%nat with (4 + 4 * j)%nat by lia.
    cbn [repeat List.concat app Nat.add nth_error].
    apply IH. lia.
Qed.

Lemma uniformData_uniform (w h : nat) (r g b : Z) :
  uniformSurface (uniformData w h r g b)
                 {| width := Z.of_nat w; height := Z.of_nat h |} r g b.
Proof.
  intros i Hi. cbn [width height] in Hi.
  assert (Hj : (Z.to_nat i < w * h)%nat) by lia.
  destruct (concat_repeat_pixel r g b 255%Z _ _ Hj) as [H0 [H1 H2]].
  unfold at_, uniformData.
  destruct (Z.ltb_spec (4 * i) 0); [lia|].
  destruct (Z.ltb_spec (4 * i + 1) 0); [lia|].
  destruct (Z.ltb_spec (4 * i + 2) 0); [lia|].
  replace (Z.to_nat (4 * i)) with (4 * Z.to_nat i)%nat by lia.
  replace (Z.to_nat (4 * i + 1)) with (4 * Z.to_nat i + 1)%nat by lia.
  replace (Z.to_nat (4 * i + 2)) with (4 * Z.to_nat i + 2)%nat by lia.
  auto.
Qed.

Lemma regionAt_injective : Injective regionAt.
Proof.
  intros [x y] [x' y'] H. unfold regionAt in H. cbn in H. now inversion H.
Qed.

Lemma filter_NoDup {A : Type} (f : A -> bool) (l : list A) :
  NoDup l -> NoDup (filter f l).
Proof.
  induction 1 as [|a l Ha Hl IH]; simpl; [constructor|].
  destruct (f a); [|exact IH].
  constructor; [|exact IH]. intro Hin. apply filter_In in Hin. tauto.
Qed.

Lemma filter_none {A : Type} (f : A -> bool) (l : list A) :
  (forall a, In a l -> f a = false) -> filter f l = [].
Proof.
  induction l as [|a l IH]; intro H; [reflexivity|].
  cbn. rewrite (H a (or_introl eq_refl)). apply IH.
  intros b Hb. apply H. now right.
Qed.

Lemma filter_all {A : Type} (f : A -> bool) (l : list A) :
  (forall a, In a l -> f a = true) -> filter f l = l.
Proof.
  induction l as [|a l IH]; intro H; [reflexivity|].
  cbn. rewrite (H a (or_introl eq_refl)). f_equal. apply IH.
  intros b Hb. apply H. now right.
Qed.

Lemma rnd_const_unit (q : Q) : 0 <= q -> q < 1 -> unitStream (rnd_const q).
Proof. intros H0 H1 n. unfold rnd_const. now split. Qed.

(** ** Terrain analyzer: the claims *)

(** C5: the [suitableAreas] returned by [analyzeTerrainForPlacement] are in
    descending order of score; every entry scores at least as much as every
    entry after it, whatever the surface, the map size and the draws. *)
Theorem suitableAreas_sorted_descending (random : nat -> Q)
    (terrainImage : option Uint8ClampedArray) (mapSettings : MapSettings)
    (c : nat) :
  StronglySorted scoreGe
    (suitableAreas
       (fst (analyzeTerrainForPlacement random terrainImage mapSettings c))).
Proof.
  destruct terrainImage as [data|].
  - rewrite analyze_run. cbn [fst suitableAreas]. apply sortByScore_sorted.
  - cbn. constructor.
Qed.

(** C6: the [avoidAreas] returned by [analyzeTerrainForPlacement] are, in
    visiting order, one region of radius 30 centred at each sample point whose
    pixel has blue above red + 30 and above green + 30, and nothing else; no
    sample point and no region occurs twice. *)
Theorem avoidAreas_are_the_water_samples (random : nat -> Q)
    (data : Uint8ClampedArray) (mapSettings : MapSettings) (c : nat) :
  let avoid :=
    avoidAreas
      (fst (analyzeTerrainForPlacement random (Some data) mapSettings c)) in
  avoid
  = map (fun p => {| a_x := fst p; a_y := snd p; radius := 30 |})
        (filter (fun p => waterPixel (pixelAt data (width mapSettings) p))
                (gridPoints mapSettings))
  /\ NoDup (gridPoints mapSettings)
  /\ NoDup avoid.
Proof.
  cbv zeta. rewrite analyze_run. cbn [fst avoidAreas].
  split; [reflexivity|]. split; [apply gridPoints_NoDup|].
  apply Injective_map_NoDup; [apply regionAt_injective|].
  apply filter_NoDup, gridPoints_NoDup.
Qed.

(** C8: on a surface whose every pixel is the gray (120, 120, 120), every
    sample scores 130, hence at least 100, before jitter; whatever the draws
    in [0, 1), every sample point is kept, so [suitableAreas] has as many
    entries as the grid has points, and [avoidAreas] is empty. *)
Theorem uniform_gray_surface (random : nat -> Q) (data : Uint8ClampedArray)
    (mapSettings : MapSettings) (c : nat) :
  unitStream random ->
  uniformSurface data mapSettings 120 120 120 ->
  let res :=
    fst (analyzeTerrainForPlacement random (Some data) mapSettings c) in
  Forall (fun p => baseScore (traitsAt data (width mapSettings) p) = 130
                   /\ 100 <= baseScore (traitsAt data (width mapSettings) p))
         (gridPoints mapSettings)
  /\ List.length (suitableAreas res) = List.length (gridPoints mapSettings)
  /\ avoidAreas res = [].
Proof.
  intros Hunit Hgray. cbv zeta. rewrite analyze_run. cbn [fst suitableAreas avoidAreas].
  assert (Hbase : forall p, In p (gridPoints mapSettings) ->
                    baseScore (traitsAt data (width mapSettings) p) = 130).
  { intros p Hp. now rewrite (uniform_traitsAt _ _ _ _ _ _ Hgray Hp). }
  split; [|split].
  - apply Forall_forall. intros p Hp. rewrite (Hbase p Hp).
    split; [reflexivity|]. now compute.
  - rewrite sortByScore_length. apply keptFrom_all.
    intros p k Hp. unfold jitteredScore. rewrite (Hbase p Hp).
    destruct (Hunit k) as [H0 H1]. lra.
  - rewrite filter_none; [reflexivity|].
    intros p Hp. now rewrite (uniform_pixelAt _ _ _ _ _ _ Hgray Hp).
Qed.

Lemma uniform_gray_surface_witness :
  let mapSettings := {| width := 80; height := 80 |} in
  let data := uniformData 80 80 120 120 120 in
  let res :=
    fst (analyzeTerrainForPlacement (rnd_const (1 # 2)) (Some data)
           mapSettings 0%nat) in
  unitStream (rnd_const (1 # 2))
  /\ uniformSurface data mapSettings 120 120 120
  /\ List.length (suitableAreas res) = 4%nat /\ avoidAreas res = [].
Proof.
  cbv zeta.
  assert (Hunit : unitStream (rnd_const (1 # 2)))
    by (apply rnd_const_unit; now compute).
  split; [exact Hunit|].
  split; [exact (uniformData_uniform 80 80 120 120 120)|].
  destruct (uniform_gray_surface (rnd_const (1 # 2))
              (uniformData 80 80 120 120 120)
              {| width := 80; height := 80 |} 0%nat Hunit
              (uniformData_uniform 80 80 120 120 120)) as [_ [Hlen Hav]].
  split; [exact Hlen | exact Hav].
Defined.

Lemma water_traits (r g b : Z) :
  (r + 30 < b)%Z -> (g + 30 < b)%Z -> isWater (traitsOf r g b) = true.
Proof.
  intros Hr Hg. unfold traitsOf. cbn [isWater].
  apply andb_true_iff. split; now apply Z.ltb_lt.
Qed.

Lemma water_baseScore (t : Traits) :
  isWater t = true -> baseScore t = if isModerate t then 50 else 20.
Proof.
  intro Hw. unfold baseScore. rewrite Hw. now destruct (isModerate t).
Qed.

Lemma keptFrom_nth (random : nat -> Q) (data : Uint8ClampedArray) (w : Z)
    (pts : list (Z * Z)) (c k : nat) (p : Z * Z) :
  nth_error pts k = Some p ->
  40 < jitteredScore random data w p (c + k) ->
  In p (map (fun a => (s_x a, s_y a)) (keptFrom random data w pts c)).
Proof.
  revert c k. induction pts as [|q pts IH]; intros c k Hnth Hs;
    [destruct k; discriminate|].
  cbn [keptFrom]. rewrite map_app. apply in_or_app.
  destruct k as [|k]; cbn [nth_error] in Hnth.
  - inversion Hnth; subst q. left. rewrite Nat.add_0_r in Hs.
    apply Qltb_true in Hs. rewrite Hs. cbn. left. now destruct p.
  - right. apply (IH (S c) k Hnth).
    now replace (S c + k)%nat with (c + S k)%nat by lia.
Qed.

Lemma keptFrom_kept (random : nat -> Q) (data : Uint8ClampedArray) (w : Z)
    (pts : list (Z * Z)) (c : nat) (p : Z * Z) :
  In p (map (fun a => (s_x a, s_y a)) (keptFrom random data w pts c)) ->
  exists k, nth_error pts k = Some p
            /\ 40 < jitteredScore random data w p (c + k).
Proof.
  revert c. induction pts as [|q pts IH]; intros c Hin; [destruct Hin|].
  cbn [keptFrom] in Hin. rewrite map_app in Hin.
  apply in_app_or in Hin. destruct Hin as [Hin|Hin].
  - destruct (Qltb 40 (jitteredScore random data w q c)) eqn:E;
      [|destruct Hin].
    destruct Hin as [Heq|[]]. cbn in Heq. exists 0%nat.
    rewrite Nat.add_0_r. apply Qltb_true in E.
    destruct q; cbn in Heq; subst p. now split.
  - destruct (IH _ Hin) as [k [Hnth Hs]]. exists (S k).
    split; [exact Hnth|].
    now replace (c + S k)%nat with (S c + k)%nat by lia.
Qed.

(** C2, as the code has it: on a surface whose every pixel is one water
    colour (blue above red + 30 and above green + 30), every sample point is
    flagged as water, so [avoidAreas] holds one region of radius 30 per sample
    point.  Where the brightness of that colour lies outside [80, 160], every
    score before jitter is 20 and [suitableAreas] is empty; where it lies
    inside, as for (0, 0, 255) with brightness 85, every score before jitter
    is 50, every sample whose draw is at least 1/100 is kept as suitable and
    every sample whose draw is 0 is dropped. *)
Theorem uniform_water_surface (random : nat -> Q) (data : Uint8ClampedArray)
    (mapSettings : MapSettings) (r g b : Z) (c : nat) :
  unitStream random ->
  uniformSurface data mapSettings r g b ->
  (r + 30 < b)%Z -> (g + 30 < b)%Z ->
  let res :=
    fst (analyzeTerrainForPlacement random (Some data) mapSettings c) in
  let grid := gridPoints mapSettings in
  let base p := baseScore (traitsAt data (width mapSettings) p) in
  let kept := map (fun a => (s_x a, s_y a)) (suitableAreas res) in
  avoidAreas res
  = map (fun p => {| a_x := fst p; a_y := snd p; radius := 30 |}) grid
  /\ List.length (avoidAreas res) = List.length grid
  /\ if isModerate (traitsOf r g b)
     then Forall (fun p => base p = 50) grid
          /\ forall k p, nth_error grid k = Some p ->
               ((1 # 100) <= random (c + k)%nat -> In p kept)
               /\ (random (c + k)%nat == 0 -> ~ In p kept)
     else Forall (fun p => base p = 20) grid
          /\ suitableAreas res = [].
Proof.
  intros Hunit Hsurf Hr Hg. cbv zeta. rewrite analyze_run.
  cbn [fst suitableAreas avoidAreas].
  assert (Hbase : forall p, In p (gridPoints mapSettings) ->
            baseScore (traitsAt data (width mapSettings) p)
            = if isModerate (traitsOf r g b) then 50 else 20).
  { intros p Hp. rewrite (uniform_traitsAt _ _ _ _ _ _ Hsurf Hp).
    apply water_baseScore, water_traits; assumption. }
  assert (Hall : filter (fun p => waterPixel (pixelAt data (width mapSettings) p))
                        (gridPoints mapSettings) = gridPoints mapSettings).
  { apply filter_all. intros p Hp.
    rewrite (uniform_pixelAt _ _ _ _ _ _ Hsurf Hp). cbn.
    apply andb_true_iff. split; now apply Z.ltb_lt. }
  rewrite Hall. split; [reflexivity|]. split; [apply length_map|].
  destruct (isModerate (traitsOf r g b)).
  - split; [apply Forall_forall; exact Hbase|].
    intros k p Hnth.
    assert (Hp : In p (gridPoints mapSettings))
      by (eapply nth_error_In; exact Hnth).
    set (kept := keptFrom random data (width mapSettings)
                          (gridPoints mapSettings) c).
    assert (Hsort : forall q,
              In q (map (fun a => (s_x a, s_y a)) (sortByScore kept))
              <-> In q (map (fun a => (s_x a, s_y a)) kept)).
    { intro q. split; apply Permutation_in, Permutation_map;
        [|symmetry]; apply sortByScore_perm. }
    split.
    + intro Hdraw. apply Hsort. apply (keptFrom_nth _ _ _ _ c k p Hnth).
      unfold jitteredScore. rewrite (Hbase p Hp). lra.
    + intros Hzero Hin. apply Hsort in Hin.
      apply keptFrom_kept in Hin. destruct Hin as [k' [Hnth' Hs]].
      assert (Hk : k' = k).
      { pose proof (gridPoints_NoDup mapSettings) as Hnd.
        rewrite NoDup_nth_error in Hnd. apply Hnd.
        - apply nth_error_Some. congruence.
        - congruence. }
      subst k'. unfold jitteredScore in Hs. rewrite (Hbase p Hp) in Hs. lra.
  - split; [apply Forall_forall; exact Hbase|].
    rewrite keptFrom_none; [reflexivity|].
    intros p k Hp. unfold jitteredScore. rewrite (Hbase p Hp).
    destruct (Hunit k) as [H0 H1]. lra.
Qed.

Lemma uniform_water_surface_witness :
  let mapSettings := {| width := 80; height := 80 |} in
  let data := uniformData 80 80 0 0 200 in
  let res :=
    fst (analyzeTerrainForPlacement (rnd_const (1 # 2)) (Some data)
           mapSettings 0%nat) in
  unitStream (rnd_const (1 # 2))
  /\ uniformSurface data mapSettings 0 0 200
  /\ (0 + 30 < 200)%Z
  /\ List.length (avoidAreas res) = 4%nat
  /\ suitableAreas res = [].
Proof.
  cbv zeta.
  assert (Hunit : unitStream (rnd_const (1 # 2)))
    by (apply rnd_const_unit; now compute).
  assert (Hlt : (0 + 30 < 200)%Z) by lia.
  split; [exact Hunit|].
  split; [exact (uniformData_uniform 80 80 0 0 200)|].
  split; [exact Hlt|].
  destruct (uniform_water_surface (rnd_const (1 # 2))
              (uniformData 80 80 0 0 200)
              {| width := 80; height := 80 |} 0 0 200 0%nat Hunit
              (uniformData_uniform 80 80 0 0 200) Hlt Hlt)
    as [_ [Hlen [_ Hsuit]]].
  split; [exact Hlen | exact Hsuit].
Defined.

(** C2 fails as stated: on the 80 by 80 surface whose every pixel is the deep
    blue (0, 0, 255), with every draw 1/2, all four sample points are flagged
    as water and all four are kept as suitable, each with score 50. *)
Lemma deep_blue_keeps_every_sample :
  let mapSettings := {| width := 80; height := 80 |} in
  let data := uniformData 80 80 0 0 255 in
  let res :=
    fst (analyzeTerrainForPlacement (rnd_const (1 # 2)) (Some data)
           mapSettings 0%nat) in
  uniformSurface data mapSettings 0 0 255
  /\ unitStream (rnd_const (1 # 2))
  /\ List.length (gridPoints mapSettings) = 4%nat
  /\ List.length (avoidAreas res) = 4%nat
  /\ List.length (suitableAreas res) = 4%nat
  /\ Forall (fun p => score p == 50 /\ ~ score p <= 40) (suitableAreas res).
Proof.
  cbv zeta.
  split; [exact (uniformData_uniform 80 80 0 0 255)|].
  split; [apply rnd_const_unit; now compute|].
  split; [reflexivity|]. split; [reflexivity|]. split; [reflexivity|].
  vm_compute. repeat constructor; try reflexivity; intro H; apply H; reflexivity.
Qed.

(** C10: a sample's score before jitter is 100 minus one penalty plus the
    bonus, where the penalty is 80 for water, else 60 for very dark, else 20
    for very bright, else 0, and the bonus of 30 depends on the brightness
    band alone; the pixel (0, 0, 255) is water with brightness 85, scores 50
    before jitter, and with the draw 1/2 is kept with score 50 > 40 while
    also being an avoid region. *)
Theorem one_penalty_and_independent_bonus :
  (forall t : Traits, baseScore t = 100 - penaltyOf t + bonusOf t)
  /\ (let t := traitsOf 0 0 255 in
      isWater t = true
      /\ 80 <= brightnessOf 0 0 255 /\ brightnessOf 0 0 255 <= 160
      /\ baseScore t = 50)
  /\ (let res :=
        fst (analyzeTerrainForPlacement (rnd_const (1 # 2))
               (Some (uniformData 80 80 0 0 255))
               {| width := 80; height := 80 |} 0%nat) in
      In {| a_x := 20; a_y := 20; radius := 30 |} (avoidAreas res)
      /\ exists sc, In {| s_x := 20; s_y := 20; score := sc |}
                       (suitableAreas res)
                    /\ sc == 50 /\ 40 < sc).
Proof.
  split; [|split].
  - intros [[] [] [] []]; reflexivity.
  - cbv zeta. repeat split; try reflexivity; now compute.
  - cbv zeta. split.
    + vm_compute. now left.
    + exists (100 # 2). split; [vm_compute; now left|].
      split; reflexivity.
Qed.

(** C7: the bonus the selector adds for a location type is the table
    landmark +20 when score > 80, shop +15 when 60 < score < 90, mission +10
    when score > 70, resource +25 when score > 50, npc +15 when score > 60,
    and 0 in every other case. *)
Theorem typeBonus_table (locationType : string) (score : Q) :
  typeBonus locationType score = typeBonusTable locationType score.
Proof.
  unfold typeBonus, typeBonusTable.
  destruct (String.eqb_spec locationType "landmark") as [->|_];
    [cbn; now destruct (Qltb 80 score)|].
  destruct (String.eqb_spec locationType "shop") as [->|_];
    [cbn; now destruct (Qltb 60 score), (Qltb score 90)|].
  destruct (String.eqb_spec locationType "mission") as [->|_];
    [cbn; now destruct (Qltb 70 score)|].
  destruct (String.eqb_spec locationType "resource") as [->|_];
    [cbn; now destruct (Qltb 50 score)|].
  destruct (String.eqb_spec locationType "npc") as [->|_];
    [cbn; now destruct (Qltb 60 score)|].
  reflexivity.
Qed.

(** ** What the selector computes *)

Lemma tooClose_false (existingLocations : list MapLocation) (x y : Q) :
  tooClose existingLocations x y = false <-> farFromAll existingLocations x y.
Proof.
  unfold tooClose, farFromAll.
  induction existingLocations as [|loc l IH]; cbn [existsb].
  - split; [constructor | reflexivity].
  - rewrite orb_false_iff, sqrt_lt_80, IH. split.
    + intros [H1 H2]. now constructor.
    + intro H. inversion H; subst. now split.
Qed.

Lemma inAvoidArea_false (avoid : list AvoidRegion) (x y : Q) :
  inAvoidArea avoid x y = false <-> outsideAllDiscs avoid x y.
Proof.
  unfold inAvoidArea, outsideAllDiscs.
  induction avoid as [|a l IH]; cbn [existsb].
  - split; [constructor | reflexivity].
  - rewrite orb_false_iff, sqrt_lt_outside, IH. split.
    + intros [H1 H2]. now constructor.
    + intro H. inversion H; subst. now split.
Qed.

Lemma qualifies_true (locationType : string)
    (existingLocations : list MapLocation) (avoid : list AvoidRegion)
    (area : SuitabilityPoint) :
  qualifies locationType existingLocations avoid area = true <->
  farFromAll existingLocations (inject_Z (s_x area)) (inject_Z (s_y area))
  /\ outsideAllDiscs avoid (inject_Z (s_x area)) (inject_Z (s_y area))
  /\ 50 < score area + typeBonus locationType (score area).
Proof.
  unfold qualifies.
  rewrite !andb_true_iff, !negb_true_iff, tooClose_false, inAvoidArea_false,
    Qltb_true.
  tauto.
Qed.

Lemma inject_Z_margin (n : Z) : inject_Z (n - 50) == inject_Z (n - 100) + 50.
Proof.
  replace (n - 50)%Z with ((n - 100) + 50)%Z by lia.
  now rewrite inject_Z_plus.
Qed.

Lemma random_coordinate_bounds (r : Q) (n : Z) :
  0 <= r -> r < 1 -> (100 <= n)%Z ->
  50 <= r * inject_Z (n - 100) + 50
  /\ r * inject_Z (n - 100) + 50 <= inject_Z (n - 50).
Proof.
  intros H0 H1 Hn.
  assert (HA : 0 <= inject_Z (n - 100)).
  { change 0 with (inject_Z 0). rewrite <- Zle_Qle. lia. }
  assert (Hlo : 0 <= r * inject_Z (n - 100))
    by (apply Qmult_le_0_compat; assumption).
  assert (Hhi : r * inject_Z (n - 100) <= 1 * inject_Z (n - 100)).
  { apply Qmult_le_compat_r; [now apply Qlt_le_weak | exact HA]. }
  rewrite inject_Z_margin. split; lra.
Qed.

Lemma margin_nonempty (n : Z) : (100 <= n)%Z -> 50 <= inject_Z (n - 50).
Proof.
  intro Hn. change 50 with (inject_Z 50). rewrite <- Zle_Qle. lia.
Qed.

Section SelectorRun.

Variable random : nat -> Q.
Variable mapSettings : MapSettings.

Lemma randomPlacement_run (c : nat) :
  randomPlacement random mapSettings c =
  ({| p_x := random c * inject_Z (width mapSettings - 100) + 50;
      p_y := random (S c) * inject_Z (height mapSettings - 100) + 50 |},
   S (S c)).
Proof. reflexivity. Qed.

Lemma jitteredPlacement_run (area : SuitabilityPoint) (c : nat) :
  jitteredPlacement random mapSettings area c =
  ({| p_x := clamp (inject_Z (width mapSettings - 50))
                   (inject_Z (s_x area) + (random c - (1 # 2)) * 40);
      p_y := clamp (inject_Z (height mapSettings - 50))
                   (inject_Z (s_y area) + (random (S c) - (1 # 2)) * 40) |},
   S (S c)).
Proof. reflexivity. Qed.

Lemma randomPlacement_inBounds (c : nat) :
  unitStream random ->
  (100 <= width mapSettings)%Z -> (100 <= height mapSettings)%Z ->
  inBounds mapSettings (fst (randomPlacement random mapSettings c)).
Proof.
  intros Hunit Hw Hh. rewrite randomPlacement_run. unfold inBounds.
  cbn [fst p_x p_y].
  destruct (Hunit c) as [Hc0 Hc1]. destruct (Hunit (S c)) as [Hs0 Hs1].
  split; apply random_coordinate_bounds; assumption.
Qed.

Lemma jitteredPlacement_inBounds (area : SuitabilityPoint) (c : nat) :
  (100 <= width mapSettings)%Z -> (100 <= height mapSettings)%Z ->
  inBounds mapSettings (fst (jitteredPlacement random mapSettings area c)).
Proof.
  intros Hw Hh. rewrite jitteredPlacement_run. unfold inBounds.
  cbn [fst p_x p_y].
  repeat split; try apply clamp_lower;
    apply clamp_upper, margin_nonempty; assumption.
Qed.

(** The random search either returns the first of its draws that is far from
    every existing location, or ends after [remaining] draws that are all
    too close. *)
Lemma randomAttempts_run (remaining : nat)
    (existingLocations : list MapLocation) (c : nat) :
  match randomAttempts random remaining existingLocations mapSettings c with
  | (Some p, c') =>
      exists k, (k < remaining)%nat
        /\ (p, c') = randomPlacement random mapSettings (c + 2 * k)%nat
        /\ tooClose existingLocations (p_x p) (p_y p) = false
  | (None, c') =>
      c' = (c + 2 * remaining)%nat
      /\ forall k, (k < remaining)%nat ->
           let p := fst (randomPlacement random mapSettings (c + 2 * k)%nat) in
           tooClose existingLocations (p_x p) (p_y p) = true
  end.
Proof.
  revert c. induction remaining as [|n IH]; intro c.
  - cbn. split; [lia|]. intros k Hk. lia.
  - cbn [randomAttempts]. unfold bind at 1.
    rewrite randomPlacement_run.
    set (p := {| p_x := _; p_y := _ |}).
    destruct (tooClose existingLocations (p_x p) (p_y p)) eqn:E; cbn [negb].
    + specialize (IH (S (S c))).
      destruct (randomAttempts random n existingLocations mapSettings (S (S c)))
        as [[q|] c'].
      * destruct IH as [k [Hk [Heq Hfar]]]. exists (S k).
        split; [lia|]. split; [|exact Hfar].
        rewrite Heq. f_equal. lia.
      * destruct IH as [Hc Hall]. split; [lia|].
        intros [|k] Hk.
        -- cbv zeta. rewrite Nat.mul_0_r, Nat.add_0_r, randomPlacement_run.
           exact E.
        -- replace (c + 2 * S k)%nat with (S (S c) + 2 * k)%nat by lia.
           apply Hall. lia.
    + unfold ret. exists 0%nat. split; [lia|].
      rewrite Nat.mul_0_r, Nat.add_0_r, randomPlacement_run.
      split; [reflexivity | exact E].
Qed.

(** The terrain search either returns the jittered placement of the first
    area that passes the test, or ends without a draw when none does. *)
Lemma terrainSearch_run (areas : list SuitabilityPoint) (locationType : string)
    (existingLocations : list MapLocation) (avoid : list AvoidRegion)
    (c : nat) :
  match terrainSearch random areas locationType existingLocations avoid
                      mapSettings c with
  | (Some p, c') =>
      exists before area after,
        areas = before ++ area :: after
        /\ forallb (fun a => negb (qualifies locationType existingLocations
                                             avoid a)) before = true
        /\ qualifies locationType existingLocations avoid area = true
        /\ (p, c') = jitteredPlacement random mapSettings area c
  | (None, c') =>
      c' = c
      /\ forallb (fun a => negb (qualifies locationType existingLocations
                                           avoid a)) areas = true
  end.
Proof.
  induction areas as [|area rest IH].
  - cbn. auto.
  - cbn [terrainSearch forallb].
    destruct (qualifies locationType existingLocations avoid area) eqn:E.
    + unfold bind, ret. rewrite jitteredPlacement_run.
      exists [], area, rest. rewrite jitteredPlacement_run. auto.
    + destruct (terrainSearch random rest locationType existingLocations avoid
                              mapSettings c) as [[q|] c'].
      * destruct IH as [before [a [after [Heq [Hb [Hq Hp]]]]]].
        exists (area :: before), a, after. cbn [forallb app].
        rewrite E, Hb, Heq. auto.
      * cbn [negb andb]. exact IH.
Qed.

End SelectorRun.

(** ** Placement selector: the claims *)

(** C3, as the code has it: on a map at least 100 wide and 100 high, with
    draws in [0, 1), the placement returned by [findOptimalPlacement] lies in
    [50, width - 50] x [50, height - 50] on every return path. *)
Theorem placement_within_margin (random : nat -> Q) (locationType : string)
    (existingLocations : list MapLocation) (terrainAnalysis : TerrainAnalysis)
    (mapSettings : MapSettings) (c : nat) :
  unitStream random ->
  (100 <= width mapSettings)%Z -> (100 <= height mapSettings)%Z ->
  inBounds mapSettings
    (fst (findOptimalPlacement random locationType existingLocations
            terrainAnalysis mapSettings c)).
Proof.
  intros Hunit Hw Hh. unfold findOptimalPlacement, bind.
  destruct (List.length (suitableAreas terrainAnalysis) =? 0)%nat.
  - pose proof (randomAttempts_run random mapSettings 50 existingLocations c)
      as Hrun.
    destruct (randomAttempts random 50 existingLocations mapSettings c)
      as [[p|] c'].
    + destruct Hrun as [k [_ [Heq _]]]. unfold ret. cbn [fst].
      change p with (fst (p, c')). rewrite Heq.
      now apply randomPlacement_inBounds.
    + now apply randomPlacement_inBounds.
  - pose proof (terrainSearch_run random mapSettings
                  (suitableAreas terrainAnalysis) locationType
                  existingLocations (avoidAreas terrainAnalysis) c) as Hrun.
    destruct (terrainSearch random (suitableAreas terrainAnalysis) locationType
                existingLocations (avoidAreas terrainAnalysis) mapSettings c)
      as [[p|] c'].
    + destruct Hrun as [before [area [after [_ [_ [_ Heq]]]]]].
      unfold ret. cbn [fst]. change p with (fst (p, c')). rewrite Heq.
      now apply jitteredPlacement_inBounds.
    + now apply randomPlacement_inBounds.
Qed.

Lemma placement_within_margin_witness :
  let mapSettings := {| width := 1200; height := 800 |} in
  unitStream (rnd_const (1 # 2))
  /\ (100 <= width mapSettings)%Z /\ (100 <= height mapSettings)%Z
  /\ inBounds mapSettings
       (fst (findOptimalPlacement (rnd_const (1 # 2)) "shop" [] emptyAnalysis
               mapSettings 0%nat)).
Proof.
  cbv zeta.
  assert (Hunit : unitStream (rnd_const (1 # 2)))
    by (apply rnd_const_unit; now compute).
  assert (Hw : (100 <= width {| width := 1200; height := 800 |})%Z)
    by (cbn; lia).
  assert (Hh : (100 <= height {| width := 1200; height := 800 |})%Z)
    by (cbn; lia).
  split; [exact Hunit|]. split; [exact Hw|]. split; [exact Hh|].
  exact (placement_within_margin (rnd_const (1 # 2)) "shop" [] emptyAnalysis
           {| width := 1200; height := 800 |} 0%nat Hunit Hw Hh).
Defined.

(** C3 fails as stated: on a map 60 wide, with no terrain, no existing
    location and every draw 1/2, the returned x is 30, below the margin 50
    and above width - 50 = 10. *)
Lemma narrow_map_leaves_margin :
  let mapSettings := {| width := 60; height := 800 |} in
  let p := fst (findOptimalPlacement (rnd_const (1 # 2)) "shop" []
                  emptyAnalysis mapSettings 0%nat) in
  unitStream (rnd_const (1 # 2))
  /\ p_x p == 30
  /\ ~ inBounds mapSettings p.
Proof.
  cbv zeta. split; [apply rnd_const_unit; now compute|].
  split; [reflexivity|].
  intros [[Hlo _] _]. vm_compute in Hlo. apply Hlo. reflexivity.
Qed.

Lemma tight_candidate_qualifies :
  Exists (fun area =>
            farFromAll tightExisting
                       (inject_Z (s_x area)) (inject_Z (s_y area))
            /\ outsideAllDiscs (avoidAreas tightAnalysis)
                               (inject_Z (s_x area)) (inject_Z (s_y area))
            /\ 50 < score area + typeBonus "resource" (score area))
         (suitableAreas tightAnalysis).
Proof.
  apply Exists_cons_hd. split; [|split].
  - constructor; [|constructor]. unfold distanceSq, Qle. cbn. lia.
  - constructor; [|constructor]. right. unfold distanceSq, Qle. cbn. lia.
  - reflexivity.
Qed.

(** C1: the code breaks the claim on this input.  The only candidate
    (100, 100) is exactly 80 from the existing location (180, 100) and
    exactly 30 from the centre of the avoid disc, so it satisfies every
    constraint and is accepted; with every draw 3/4 the offset added after the
    test is +10 on each axis, and the returned point (110, 110) is within 80
    of the existing location and inside the avoid disc.  Every number on the
    way is an integer, so doubles compute the same. *)
Lemma jitter_breaks_the_constraints :
  let p := fst (findOptimalPlacement (rnd_const (3 # 4)) "resource"
                  tightExisting tightAnalysis defaultSettings 0%nat) in
  unitStream (rnd_const (3 # 4))
  /\ suitableAreas tightAnalysis <> []
  /\ Exists (fun area =>
               farFromAll tightExisting
                          (inject_Z (s_x area)) (inject_Z (s_y area))
               /\ outsideAllDiscs (avoidAreas tightAnalysis)
                                  (inject_Z (s_x area)) (inject_Z (s_y area))
               /\ 50 < score area + typeBonus "resource" (score area))
            (suitableAreas tightAnalysis)
  /\ p_x p == 110 /\ p_y p == 110
  /\ ~ farFromAll tightExisting (p_x p) (p_y p)
  /\ ~ outsideAllDiscs (avoidAreas tightAnalysis) (p_x p) (p_y p).
Proof.
  cbv zeta. split; [apply rnd_const_unit; now compute|].
  split; [discriminate|]. split; [exact tight_candidate_qualifies|].
  split; [reflexivity|]. split; [reflexivity|]. split.
  - intro H. inversion H as [|loc l Hloc Hl]; subst.
    vm_compute in Hloc. apply Hloc. reflexivity.
  - intro H. inversion H as [|a l Ha Hl]; subst.
    destruct Ha as [Ha|Ha]; vm_compute in Ha; apply Ha; reflexivity.
Qed.

Lemma typeBonus_low (locationType : string) (sc : Q) :
  sc <= 50 -> typeBonus locationType sc = 0.
Proof.
  intro H. unfold typeBonus.
  assert (H80 : Qltb 80 sc = false) by (apply Qltb_false; lra).
  assert (H70 : Qltb 70 sc = false) by (apply Qltb_false; lra).
  assert (H60 : Qltb 60 sc = false) by (apply Qltb_false; lra).
  assert (H50 : Qltb 50 sc = false) by (apply Qltb_false; lra).
  rewrite H80, H70, H60, H50, !andb_false_r. reflexivity.
Qed.

Lemma wellWithin80_tooClose (existingLocations : list MapLocation) (x y : Q) :
  wellWithin80 existingLocations x y = true ->
  tooClose existingLocations x y = true.
Proof.
  unfold wellWithin80, tooClose. rewrite !existsb_exists.
  intros [loc [Hin Hle]]. exists loc. split; [exact Hin|].
  apply Qle_bool_iff in Hle. unfold sqrt_lt.
  apply andb_true_iff. split; [reflexivity|].
  apply Qltb_true. eapply Qle_lt_trans; [exact Hle|]. reflexivity.
Qed.

Lemma wellInsideAvoid_inAvoidArea (avoid : list AvoidRegion) (x y : Q) :
  wellInsideAvoid avoid x y = true -> inAvoidArea avoid x y = true.
Proof.
  unfold wellInsideAvoid, inAvoidArea. rewrite !existsb_exists.
  intros [a [Hin Ha]]. exists a. split; [exact Hin|].
  apply andb_true_iff in Ha. destruct Ha as [Hr Hd].
  apply Qle_bool_iff in Hd. unfold sqrt_lt. rewrite Hr. cbn [andb].
  apply Qltb_true. lra.
Qed.

Lemma surelyRejected_qualifies (locationType : string)
    (existingLocations : list MapLocation) (avoid : list AvoidRegion)
    (area : SuitabilityPoint) :
  surelyRejected existingLocations avoid area = true ->
  qualifies locationType existingLocations avoid area = false.
Proof.
  unfold surelyRejected, qualifies. intro H.
  apply orb_true_iff in H. destruct H as [H|H];
    [apply orb_true_iff in H; destruct H as [H|H]|].
  - apply Qle_bool_iff in H. rewrite (typeBonus_low _ _ H).
    replace (Qltb 50 (score area + 0)) with false;
      [now rewrite andb_false_r|].
    symmetry. apply Qltb_false. lra.
  - now rewrite (wellWithin80_tooClose _ _ _ H).
  - rewrite (wellInsideAvoid_inAvoidArea _ _ _ H). cbn [negb].
    now rewrite andb_false_r.
Qed.

(** C4: [findOptimalPlacement] returns a placement on every input, after at
    least 2 and at most 2 * 50 + 2 draws.  Without terrain data the placement
    is the random point made of one of the fifty pairs of draws of the search
    or of the pair after them, and it is that last pair when every one of the
    fifty points is too close to an existing location.  With terrain data the
    placement is the jittered, clamped point of one of the suitable areas, or
    the random point made of the first pair of draws, and it is that random
    point when every area is rejected.  (Too close and rejected are taken
    with a margin, so that rounding cannot change the test.) *)
Theorem placement_always_returns (random : nat -> Q) (locationType : string)
    (existingLocations : list MapLocation) (terrainAnalysis : TerrainAnalysis)
    (mapSettings : MapSettings) (c : nat) :
  let result := findOptimalPlacement random locationType existingLocations
                  terrainAnalysis mapSettings c in
  (c + 2 <= snd result /\ snd result <= c + (2 * 50 + 2))%nat
  /\ match suitableAreas terrainAnalysis with
     | [] =>
         (exists k, (k <= 50)%nat
            /\ result = (drawnPlacement random mapSettings (c + 2 * k)%nat,
                         (c + 2 * k + 2)%nat))
         /\ (if allAttempts wellWithin80 random existingLocations
                            mapSettings c
             then result = (drawnPlacement random mapSettings (c + 2 * 50)%nat,
                            (c + 2 * 50 + 2)%nat)
             else True)
     | _ :: _ =>
         ((exists area, In area (suitableAreas terrainAnalysis)
             /\ result = (jitteredPoint random mapSettings area c,
                          (c + 2)%nat))
          \/ result = (drawnPlacement random mapSettings c, (c + 2)%nat))
         /\ (if forallb (surelyRejected existingLocations
                                        (avoidAreas terrainAnalysis))
                        (suitableAreas terrainAnalysis)
             then result = (drawnPlacement random mapSettings c, (c + 2)%nat)
             else True)
     end.
Proof.
  cbv zeta. unfold findOptimalPlacement, bind.
  destruct (suitableAreas terrainAnalysis) as [|a0 areas].
  - cbn [List.length Nat.eqb].
    pose proof (randomAttempts_run random mapSettings 50 existingLocations c)
      as Hrun.
    destruct (randomAttempts random 50 existingLocations mapSettings c)
      as [[p|] c'].
    + destruct Hrun as [k [Hk [Heq Hfar]]]. unfold ret.
      rewrite Heq, randomPlacement_run in *. cbn [snd fst] in *.
      split; [lia|]. split.
      * exists k. split; [lia|]. unfold drawnPlacement. f_equal. lia.
      * destruct (allAttempts wellWithin80 random existingLocations
                              mapSettings c) eqn:Hall; [|exact I].
        exfalso. unfold allAttempts in Hall.
        rewrite forallb_forall in Hall.
        assert (Hseq : In k (seq 0 50)) by (apply in_seq; lia).
        specialize (Hall k Hseq). cbv zeta in Hall.
        apply wellWithin80_tooClose in Hall.
        inversion Heq; subst p. unfold drawnPlacement in Hall.
        cbn [p_x p_y] in *. congruence.
    + destruct Hrun as [-> Hall]. rewrite randomPlacement_run. cbn [snd].
      split; [lia|]. split.
      * exists 50%nat. split; [lia|]. unfold drawnPlacement. f_equal. lia.
      * destruct (allAttempts wellWithin80 random existingLocations
                              mapSettings c); [|exact I].
        unfold drawnPlacement. f_equal. lia.
  - cbn [List.length Nat.eqb].
    pose proof (terrainSearch_run random mapSettings (a0 :: areas) locationType
                  existingLocations (avoidAreas terrainAnalysis) c) as Hrun.
    destruct (terrainSearch random (a0 :: areas) locationType existingLocations
                (avoidAreas terrainAnalysis) mapSettings c) as [[p|] c'].
    + destruct Hrun as [before [area [after [Heq [Hb [Hq Hp]]]]]].
      rewrite jitteredPlacement_run in Hp. inversion Hp; subst p c'.
      unfold ret. cbn [snd]. split; [lia|]. split.
      * left. exists area. split; [rewrite Heq; apply in_elt|].
        unfold jitteredPoint, clamp. f_equal. lia.
      * destruct (forallb (surelyRejected existingLocations
                             (avoidAreas terrainAnalysis)) (a0 :: areas))
          eqn:Hall; [|exact I].
        exfalso. rewrite forallb_forall in Hall.
        assert (Hin : In area (a0 :: areas)) by (rewrite Heq; apply in_elt).
        specialize (Hall area Hin).
        apply (surelyRejected_qualifies locationType) in Hall. congruence.
    + destruct Hrun as [-> Hnone]. rewrite randomPlacement_run.
      cbn [snd]. split; [lia|]. split.
      * right. unfold drawnPlacement. f_equal. lia.
      * destruct (forallb (surelyRejected existingLocations
                             (avoidAreas terrainAnalysis)) (a0 :: areas));
          [|exact I].
        unfold drawnPlacement. f_equal. lia.
Qed.

(** ** Dependence on the random source *)

Section TwoStreams.

Variables random1 random2 : nat -> Q.

Lemma keptFrom_agree (data : Uint8ClampedArray) (w : Z) (pts : list (Z * Z))
    (c : nat) :
  (forall k, (c <= k < c + List.length pts)%nat -> random1 k = random2 k) ->
  keptFrom random1 data w pts c = keptFrom random2 data w pts c.
Proof.
  revert c. induction pts as [|p pts IH]; intros c Hagree; [reflexivity|].
  cbn [keptFrom List.length] in *. unfold jitteredScore.
  rewrite (Hagree c) by lia. f_equal. apply IH.
  intros k Hk. apply Hagree. lia.
Qed.

Lemma randomPlacement_agree (mapSettings : MapSettings) (c : nat) :
  random1 c = random2 c -> random1 (S c) = random2 (S c) ->
  randomPlacement random1 mapSettings c = randomPlacement random2 mapSettings c.
Proof.
  intros H0 H1. rewrite !randomPlacement_run, H0, H1. reflexivity.
Qed.

Lemma jitteredPlacement_agree (mapSettings : MapSettings)
    (area : SuitabilityPoint) (c : nat) :
  random1 c = random2 c -> random1 (S c) = random2 (S c) ->
  jitteredPlacement random1 mapSettings area c
  = jitteredPlacement random2 mapSettings area c.
Proof.
  intros H0 H1. rewrite !jitteredPlacement_run, H0, H1. reflexivity.
Qed.

Lemma randomAttempts_agree (remaining : nat)
    (existingLocations : list MapLocation) (mapSettings : MapSettings)
    (c : nat) :
  (forall k, (c <= k < c + 2 * remaining)%nat -> random1 k = random2 k) ->
  randomAttempts random1 remaining existingLocations mapSettings c
  = randomAttempts random2 remaining existingLocations mapSettings c.
Proof.
  revert c. induction remaining as [|n IH]; intros c Hagree; [reflexivity|].
  cbn [randomAttempts]. unfold bind.
  rewrite (randomPlacement_agree mapSettings c) by (apply Hagree; lia).
  rewrite randomPlacement_run.
  destruct (negb _); [reflexivity|].
  apply IH. intros k Hk. apply Hagree. lia.
Qed.

Lemma terrainSearch_agree (areas : list SuitabilityPoint)
    (locationType : string) (existingLocations : list MapLocation)
    (avoid : list AvoidRegion) (mapSettings : MapSettings) (c : nat) :
  random1 c = random2 c -> random1 (S c) = random2 (S c) ->
  terrainSearch random1 areas locationType existingLocations avoid
                mapSettings c
  = terrainSearch random2 areas locationType existingLocations avoid
                  mapSettings c.
Proof.
  intros H0 H1. induction areas as [|area rest IH]; [reflexivity|].
  cbn [terrainSearch].
  destruct (qualifies locationType existingLocations avoid area);
    [|exact IH].
  unfold bind. now rewrite (jitteredPlacement_agree mapSettings area c H0 H1).
Qed.

End TwoStreams.

Lemma rnd_prefix_agrees (n : nat) (q q' : Q) (k : nat) :
  (k < n)%nat -> rnd_const q k = rnd_prefix n q q' k.
Proof.
  intro Hk. unfold rnd_const, rnd_prefix.
  destruct (Nat.ltb_spec k n); [reflexivity | lia].
Qed.

(** The pure operations depend on the draws they consume only. *)
Lemma analyze_agree (random1 random2 : nat -> Q)
    (terrainImage : option Uint8ClampedArray) (mapSettings : MapSettings)
    (c : nat) :
  (forall k, (c <= k < c + List.length (gridPoints mapSettings))%nat ->
             random1 k = random2 k) ->
  analyzeTerrainForPlacement random1 terrainImage mapSettings c
  = analyzeTerrainForPlacement random2 terrainImage mapSettings c.
Proof.
  intro Hgrid. destruct terrainImage as [data|]; [|reflexivity].
  rewrite !analyze_run.
  now rewrite (keptFrom_agree random1 random2 data _ _ c Hgrid).
Qed.

Lemma selector_agree (random1 random2 : nat -> Q) (locationType : string)
    (existingLocations : list MapLocation) (terrainAnalysis : TerrainAnalysis)
    (mapSettings : MapSettings) (c : nat) :
  (forall k, (c <= k < c + (2 * 50 + 2))%nat -> random1 k = random2 k) ->
  findOptimalPlacement random1 locationType existingLocations terrainAnalysis
                       mapSettings c
  = findOptimalPlacement random2 locationType existingLocations
                         terrainAnalysis mapSettings c.
Proof.
  intro Hsel. unfold findOptimalPlacement, bind.
  destruct (List.length (suitableAreas terrainAnalysis) =? 0)%nat.
  - rewrite (randomAttempts_agree random1 random2 50 existingLocations
               mapSettings c) by (intros k Hk; apply Hsel; lia).
    pose proof (randomAttempts_run random2 mapSettings 50 existingLocations c)
      as Hrun.
    destruct (randomAttempts random2 50 existingLocations mapSettings c)
      as [[p|] c']; [reflexivity|].
    destruct Hrun as [-> _].
    apply randomPlacement_agree; apply Hsel; lia.
  - rewrite (terrainSearch_agree random1 random2 _ locationType
               existingLocations (avoidAreas terrainAnalysis) mapSettings c)
      by (apply Hsel; lia).
    pose proof (terrainSearch_run random2 mapSettings
                  (suitableAreas terrainAnalysis) locationType
                  existingLocations (avoidAreas terrainAnalysis) c) as Hrun.
    destruct (terrainSearch random2 (suitableAreas terrainAnalysis)
                locationType existingLocations (avoidAreas terrainAnalysis)
                mapSettings c) as [[p|] c']; [reflexivity|].
    destruct Hrun as [-> _].
    apply randomPlacement_agree; apply Hsel; lia.
Qed.

(** ** The operations on the store *)

Module StoreFacts.

Import Store.

Lemma write_length (a : addr) (o : Object) (h : Heap) :
  List.length (write a o h) = List.length h.
Proof.
  revert a. induction h as [|x h IH]; intros [|a]; cbn; auto.
Qed.

Lemma nth_error_write_same (a : addr) (o : Object) (h : Heap) :
  (a < List.length h)%nat -> nth_error (write a o h) a = Some o.
Proof.
  revert a. induction h as [|x h IH]; intros [|a] Ha; cbn in *;
    try lia; [reflexivity|].
  apply IH. lia.
Qed.

Lemma nth_error_write_other (a b : addr) (o : Object) (h : Heap) :
  b <> a -> nth_error (write a o h) b = nth_error h b.
Proof.
  revert a b. induction h as [|x h IH]; intros [|a] [|b] Hne; cbn;
    try reflexivity; try congruence.
  apply IH. congruence.
Qed.

(** [h'] has every address of [h] and agrees with [h] below [n]. *)
Definition extends (n : nat) (h h' : Heap) : Prop :=
  (List.length h <= List.length h')%nat
  /\ forall a, (a < n)%nat -> nth_error h' a = nth_error h a.

Lemma extends_refl (n : nat) (h : Heap) : extends n h h.
Proof. split; auto. Qed.

Lemma extends_trans (n : nat) (h1 h2 h3 : Heap) :
  extends n h1 h2 -> extends n h2 h3 -> extends n h1 h3.
Proof.
  intros [L1 A1] [L2 A2]. split; [lia|].
  intros a Ha. now rewrite A2, A1.
Qed.

Lemma extends_unchanged (h h' : Heap) :
  extends (List.length h) h h' -> unchanged h h'.
Proof.
  intros [_ Hagree] a o Ha. rewrite Hagree; [exact Ha|].
  apply nth_error_Some. congruence.
Qed.

(** A command that leaves the objects below [n] as they are. *)
Definition framed {A : Type} (n : nat) (m : Cmd A) : Prop :=
  forall h c, (n <= List.length h)%nat -> extends n h (heapOf (m h c)).

Lemma framed_ret {A : Type} (n : nat) (a : A) : framed n (retS a).
Proof. intros h c _. apply extends_refl. Qed.

Lemma framed_alloc (n : nat) (o : Object) : framed n (alloc o).
Proof.
  intros h c Hn. unfold alloc, heapOf. cbn. split.
  - rewrite length_app. lia.
  - intros a Ha. apply nth_error_app1. lia.
Qed.

Lemma extends_write (n : nat) (arr : addr) (o : Object) (h : Heap) :
  (n <= arr)%nat -> extends n h (write arr o h).
Proof.
  intro Harr. split; [now rewrite write_length|].
  intros a Ha. apply nth_error_write_other. lia.
Qed.

Lemma framed_push (n : nat) (arr v : addr) :
  (n <= arr)%nat -> framed n (push arr v).
Proof.
  intros Harr h c _. unfold push, heapOf.
  destruct (nth_error h arr) as [[]|]; cbn; try apply extends_refl.
  now apply extends_write.
Qed.

Lemma framed_sortInPlace (n : nat) (arr : addr) :
  (n <= arr)%nat -> framed n (sortInPlace arr).
Proof.
  intros Harr h c _. unfold sortInPlace, heapOf.
  destruct (nth_error h arr) as [[]|]; cbn; try apply extends_refl.
  now apply extends_write.
Qed.

Lemma framed_bind {A B : Type} (n : nat) (m : Cmd A) (k : A -> Cmd B) :
  framed n m -> (forall a, framed n (k a)) -> framed n (bindS m k).
Proof.
  intros Hm Hk h c Hn. unfold bindS, heapOf.
  specialize (Hm h c Hn). unfold heapOf in Hm.
  destruct (m h c) as [[a h1] c1]. cbn [fst snd] in Hm.
  eapply extends_trans; [exact Hm|].
  apply (Hk a h1 c1). destruct Hm as [Hlen _]. lia.
Qed.

Lemma framed_forEach (n : nat) (l : list Z) (body : Z -> Cmd unit) :
  (forall i, framed n (body i)) -> framed n (forEachS l body).
Proof.
  intro Hbody. induction l as [|i l IH]; cbn [forEachS].
  - apply framed_ret.
  - apply framed_bind; [apply Hbody | intros _; exact IH].
Qed.

Section OneStream.

Variable random : nat -> Q.

Lemma framed_random (n : nat) : framed n (Math_randomS random).
Proof. intros h c _. apply extends_refl. Qed.

Lemma framed_samplePoint (n : nat) (d : addr) (w x y : Z)
    (suitableAreas avoidAreas : addr) :
  (n <= suitableAreas)%nat -> (n <= avoidAreas)%nat ->
  framed n (samplePointS random d w x y suitableAreas avoidAreas).
Proof.
  intros Hs Ha h c Hn. unfold samplePointS. cbv zeta.
  revert Hn. generalize (classify (bytesAt h d) ((y * w + x) * 4)). intro t.
  revert h c. change (framed n
    (_ <-- (if isWater t
            then region <-- alloc (Avoid {| a_x := x; a_y := y; radius := 30 |}) ;;
                 push avoidAreas region
            else retS tt) ;;
     rnd <-- Math_randomS random ;;
     if Qltb 40 (baseScore t + (rnd * 20 - 10))
     then point <-- alloc (Suitability {| s_x := x; s_y := y;
                                          score := baseScore t + (rnd * 20 - 10) |}) ;;
          push suitableAreas point
     else retS tt)).
  apply framed_bind.
  - destruct (isWater t); [|apply framed_ret].
    apply framed_bind; [apply framed_alloc | intro r; now apply framed_push].
  - intros _. apply framed_bind; [apply framed_random|]. intro rnd.
    destruct (Qltb 40 _); [|apply framed_ret].
    apply framed_bind; [apply framed_alloc | intro p; now apply framed_push].
Qed.

(** The analyzer leaves every object of the store it starts in as it is. *)
Lemma analyze_extends (surface : option addr) (mapSettings : MapSettings)
    (h : Heap) (c : nat) :
  extends (List.length h) h
          (heapOf (analyzeTerrainForPlacementS random surface mapSettings h c)).
Proof.
  unfold analyzeTerrainForPlacementS.
  destruct surface as [d|].
  - unfold bindS at 1 2. unfold alloc at 1 2. cbn [fst snd].
    set (h2 := (h ++ [Array []]) ++ [Array []]).
    assert (H2 : extends (List.length h) h h2).
    { split; [unfold h2; rewrite !length_app; lia|].
      intros a Ha. unfold h2. rewrite <- app_assoc. apply nth_error_app1. lia. }
    eapply extends_trans; [exact H2|].
    apply framed_bind.
    + apply framed_forEach. intro x. apply framed_forEach. intro y.
      apply framed_samplePoint; rewrite ?length_app; lia.
    + intros _. apply framed_bind; [|intros _; apply framed_alloc].
      apply framed_sortInPlace. lia.
    + unfold h2. rewrite !length_app. lia.
  - unfold bindS, alloc, heapOf. cbn. split.
    + rewrite !length_app. lia.
    + intros a Ha. rewrite <- !app_assoc. apply nth_error_app1. lia.
Qed.

Lemma selector_extends (locationType : string)
    (existingLocations terrainAnalysis : addr) (mapSettings : MapSettings)
    (h : Heap) (c : nat) :
  extends (List.length h) h
          (heapOf (findOptimalPlacementS random locationType existingLocations
                     terrainAnalysis mapSettings h c)).
Proof.
  unfold findOptimalPlacementS.
  destruct (findOptimalPlacement random locationType _ _ mapSettings c)
    as [p c'].
  apply framed_alloc. lia.
Qed.

End OneStream.

(** ** Runs on equal draws *)

Section TwoRuns.

Variables random1 random2 : nat -> Q.

Definition agreeOn (c n : nat) : Prop :=
  forall k, (c <= k < c + n)%nat -> random1 k = random2 k.

Lemma forEachS_cursor (n : nat) (body : Z -> Cmd unit) :
  (forall i h c, cursorOf (body i h c) = (c + n)%nat) ->
  forall l h c,
    cursorOf (forEachS l body h c) = (c + List.length l * n)%nat.
Proof.
  intros Hcur. induction l as [|i l IH]; intros h c.
  - unfold cursorOf, retS. cbn. lia.
  - cbn [forEachS List.length]. unfold bindS.
    specialize (Hcur i h c). unfold cursorOf in Hcur.
    destruct (body i h c) as [[u h1] c1]. cbn [snd] in Hcur. subst c1.
    rewrite IH. lia.
Qed.

Lemma forEachS_agree (n : nat) (body1 body2 : Z -> Cmd unit) :
  (forall i h c, cursorOf (body1 i h c) = (c + n)%nat) ->
  (forall i h c, agreeOn c n -> body1 i h c = body2 i h c) ->
  forall l h c,
    agreeOn c (List.length l * n) ->
    forEachS l body1 h c = forEachS l body2 h c
    /\ cursorOf (forEachS l body1 h c) = (c + List.length l * n)%nat.
Proof.
  intros Hcur Hbody. induction l as [|i l IH]; intros h c Hagree.
  - cbn. split; [reflexivity|]. unfold cursorOf, retS. cbn. lia.
  - cbn [forEachS List.length] in *. unfold bindS.
    rewrite <- (Hbody i h c) by (intros k Hk; apply Hagree; lia).
    specialize (Hcur i h c). unfold cursorOf in Hcur.
    destruct (body1 i h c) as [[u h1] c1]. cbn [snd] in Hcur. subst c1.
    destruct (IH h1 (c + n)%nat) as [Heq Hc].
    { intros k Hk. apply Hagree. lia. }
    split; [exact Heq|]. rewrite Hc. lia.
Qed.

Lemma samplePointS_cursor (random : nat -> Q) (d : addr) (w x y : Z)
    (sa av : addr) (h : Heap) (c : nat) :
  cursorOf (samplePointS random d w x y sa av h c) = (c + 1)%nat.
Proof.
  unfold samplePointS, bindS, Math_randomS, alloc, push, retS, cursorOf.
  cbv zeta.
  destruct (isWater _); [destruct (nth_error _ av) as [[]|]|];
    (destruct (Qltb 40 _); [destruct (nth_error _ sa) as [[]|]|]);
    cbn; lia.
Qed.

Lemma samplePointS_agree (d : addr) (w x y : Z) (sa av : addr) (h : Heap)
    (c : nat) :
  agreeOn c 1 ->
  samplePointS random1 d w x y sa av h c
  = samplePointS random2 d w x y sa av h c.
Proof.
  intro Hagree.
  unfold samplePointS, bindS, Math_randomS, alloc, push, retS. cbv zeta.
  destruct (isWater _); [destruct (nth_error _ av) as [[]|]|];
    rewrite (Hagree c) by lia; reflexivity.
Qed.

Lemma analyzeS_agree (surface : option addr) (mapSettings : MapSettings)
    (h : Heap) (c : nat) :
  agreeOn c (List.length (gridPoints mapSettings)) ->
  analyzeTerrainForPlacementS random1 surface mapSettings h c
  = analyzeTerrainForPlacementS random2 surface mapSettings h c.
Proof.
  intro Hagree. unfold analyzeTerrainForPlacementS.
  destruct surface as [d|]; [|reflexivity].
  unfold bindS at 1 2 3. unfold bindS at 3 4 5. unfold alloc at 1 2 4 5.
  cbv iota beta.
  set (sa := List.length h).
  set (av := List.length (h ++ [Array []])).
  set (h2 := (h ++ [Array []]) ++ [Array []]).
  unfold gridPoints in Hagree. rewrite length_prod in Hagree.
  destruct (forEachS_agree (List.length (sampleAxis (height mapSettings)))
              (fun x => forEachS (sampleAxis (height mapSettings))
                 (fun y => samplePointS random1 d (width mapSettings) x y sa av))
              (fun x => forEachS (sampleAxis (height mapSettings))
                 (fun y => samplePointS random2 d (width mapSettings) x y sa av)))
    with (l := sampleAxis (width mapSettings)) (h := h2) (c := c)
    as [Heq _].
  - intros x h' c'.
    rewrite (forEachS_cursor 1) by (intros; apply samplePointS_cursor). lia.
  - intros x h' c' Hx.
    destruct (forEachS_agree 1
                (fun y => samplePointS random1 d (width mapSettings) x y sa av)
                (fun y => samplePointS random2 d (width mapSettings) x y sa av))
      with (l := sampleAxis (height mapSettings)) (h := h') (c := c')
      as [Heq _]; [| |rewrite Nat.mul_1_r; exact Hx|exact Heq].
    + intros. apply samplePointS_cursor.
    + intros. now apply samplePointS_agree.
  - exact Hagree.
  - now rewrite Heq.
Qed.

Lemma selectorS_agree (locationType : string)
    (existingLocations terrainAnalysis : addr) (mapSettings : MapSettings)
    (h : Heap) (c : nat) :
  agreeOn c (2 * 50 + 2) ->
  findOptimalPlacementS random1 locationType existingLocations terrainAnalysis
                        mapSettings h c
  = findOptimalPlacementS random2 locationType existingLocations
                          terrainAnalysis mapSettings h c.
Proof.
  intro Hagree. unfold findOptimalPlacementS.
  now rewrite (selector_agree random1 random2 locationType _ _ mapSettings c
                 Hagree).
Qed.

End TwoRuns.

(** ** The store operations compute what the engine computes *)

Definition isArray (h : Heap) (a : addr) : Prop :=
  exists elems, nth_error h a = Some (Array elems).

(** The store after [arr.push(o)] for a new object [o]. *)
Definition pushNew (arr : addr) (o : Object) (h : Heap) : Heap :=
  write arr (Array (elements h arr ++ [List.length h])) (h ++ [o]).

Lemma isArray_lt (h : Heap) (a : addr) :
  isArray h a -> (a < List.length h)%nat.
Proof. intros [l Hl]. apply nth_error_Some. congruence. Qed.

Lemma alloc_push_run (arr : addr) (o : Object) (h : Heap) (c : nat) :
  isArray h arr ->
  (x <-- alloc o ;; push arr x) h c = (tt, pushNew arr o h, c).
Proof.
  intros Harr. pose proof (isArray_lt h arr Harr) as Hlt.
  destruct Harr as [l Hl].
  unfold bindS, alloc, push, pushNew, elements.
  rewrite nth_error_app1 by exact Hlt. now rewrite Hl.
Qed.

Lemma pushNew_array (arr : addr) (o : Object) (h : Heap) :
  isArray h arr ->
  nth_error (pushNew arr o h) arr
  = Some (Array (elements h arr ++ [List.length h])).
Proof.
  intro Harr. apply isArray_lt in Harr. unfold pushNew.
  apply nth_error_write_same. rewrite length_app. lia.
Qed.

Lemma pushNew_new (arr : addr) (o : Object) (h : Heap) :
  isArray h arr -> nth_error (pushNew arr o h) (List.length h) = Some o.
Proof.
  intro Harr. apply isArray_lt in Harr. unfold pushNew.
  rewrite nth_error_write_other by lia.
  rewrite nth_error_app2 by lia. now rewrite Nat.sub_diag.
Qed.

Lemma pushNew_old (arr a : addr) (o x : Object) (h : Heap) :
  a <> arr -> nth_error h a = Some x ->
  nth_error (pushNew arr o h) a = Some x.
Proof.
  intros Hne Ha. unfold pushNew. rewrite nth_error_write_other by exact Hne.
  rewrite nth_error_app1; [exact Ha|]. apply nth_error_Some. congruence.
Qed.

Lemma pushNew_isArray (arr a : addr) (o : Object) (h : Heap) :
  isArray h arr -> isArray h a -> isArray (pushNew arr o h) a.
Proof.
  intros Harr [l Hl]. destruct (Nat.eq_dec a arr) as [->|Hne].
  - eexists. now apply pushNew_array.
  - exists l. now apply pushNew_old.
Qed.

Lemma pushNew_elements_other (arr a : addr) (o : Object) (h : Heap) :
  a <> arr -> isArray h a -> elements (pushNew arr o h) a = elements h a.
Proof.
  intros Hne [l Hl]. unfold elements.
  now rewrite (pushNew_old arr a o (Array l) h Hne Hl), Hl.
Qed.

Definition notBytes (o : Object) : Prop :=
  match o with Bytes _ => False | _ => True end.

Lemma pushNew_bytes (arr d : addr) (o : Object) (h : Heap) :
  isArray h arr -> notBytes o -> bytesAt (pushNew arr o h) d = bytesAt h d.
Proof.
  intros Harr Ho. unfold bytesAt.
  destruct (Nat.eq_dec d arr) as [->|Hne].
  - rewrite pushNew_array by exact Harr. destruct Harr as [l ->]. reflexivity.
  - destruct (nth_error h d) as [x|] eqn:Hd.
    + now rewrite (pushNew_old arr d o x h Hne Hd).
    + apply nth_error_None in Hd. unfold pushNew.
      rewrite nth_error_write_other by exact Hne.
      destruct (Nat.eq_dec d (List.length h)) as [->|Hd'].
      * rewrite nth_error_app2, Nat.sub_diag by lia. cbn.
        destruct o; try reflexivity. destruct Ho.
      * assert (Hnone : nth_error (h ++ [o]) d = None).
        { apply nth_error_None. rewrite length_app. cbn. lia. }
        now rewrite Hnone.
Qed.

Section Cells.

Context {B : Type}.
Variable cell : B -> Object.
Hypothesis cell_not_array : forall b elems, cell b <> Array elems.

(** The addresses [l] hold the values [bs], one cell each. *)
Definition holds (h : Heap) (l : list addr) (bs : list B) : Prop :=
  Forall2 (fun a b => nth_error h a = Some (cell b)) l bs.

Lemma holds_pushNew (arr : addr) (o : Object) (h : Heap) (l : list addr)
    (bs : list B) :
  isArray h arr -> holds h l bs -> holds (pushNew arr o h) l bs.
Proof.
  intros [elems Harr] Hl. induction Hl as [|a b l bs Ha Hl IH];
    constructor; [|exact IH].
  apply pushNew_old; [|exact Ha].
  intros ->. rewrite Harr in Ha. injection Ha as Ha.
  exact (cell_not_array b elems (eq_sym Ha)).
Qed.

Lemma holds_pushNew_cell (arr : addr) (b : B) (h : Heap) (bs : list B) :
  isArray h arr -> holds h (elements h arr) bs ->
  holds (pushNew arr (cell b) h) (elements (pushNew arr (cell b) h) arr)
        (bs ++ [b]).
Proof.
  intros Harr Hl. unfold elements at 1.
  rewrite pushNew_array by exact Harr.
  apply Forall2_app; [now apply holds_pushNew|].
  constructor; [|constructor]. now apply pushNew_new.
Qed.

Lemma holds_app (h : Heap) (new : list Object) (l : list addr)
    (bs : list B) :
  holds h l bs -> holds (h ++ new) l bs.
Proof.
  intro Hl. induction Hl as [|a b l bs Ha Hl IH]; constructor; [|exact IH].
  rewrite nth_error_app1; [exact Ha|]. apply nth_error_Some. congruence.
Qed.

Lemma holds_write (arr : addr) (elems : list addr) (h : Heap)
    (l : list addr) (bs : list B) :
  isArray h arr -> holds h l bs -> holds (write arr (Array elems) h) l bs.
Proof.
  intros [old Harr] Hl. induction Hl as [|a b l bs Ha Hl IH];
    constructor; [|exact IH].
  rewrite nth_error_write_other; [exact Ha|].
  intros ->. rewrite Harr in Ha. injection Ha as Ha.
  exact (cell_not_array b old (eq_sym Ha)).
Qed.

End Cells.

Lemma holds_suitableAt (h : Heap) (arr : addr)
    (ps : list SuitabilityPoint) :
  holds Suitability h (elements h arr) ps -> suitableAt h arr = ps.
Proof.
  unfold suitableAt. generalize (elements h arr). intros l Hl.
  induction Hl as [|a p l ps Ha Hl IH]; [reflexivity|].
  cbn [flat_map]. rewrite Ha, IH. reflexivity.
Qed.

Lemma holds_avoidAt (h : Heap) (arr : addr) (rs : list AvoidRegion) :
  holds Avoid h (elements h arr) rs -> avoidAt h arr = rs.
Proof.
  unfold avoidAt. generalize (elements h arr). intros l Hl.
  induction Hl as [|a r l rs Ha Hl IH]; [reflexivity|].
  cbn [flat_map]. rewrite Ha, IH. reflexivity.
Qed.

Lemma holds_scoreAt (h : Heap) (a : addr) (p : SuitabilityPoint) :
  nth_error h a = Some (Suitability p) -> scoreAt h a = score p.
Proof. intro Ha. unfold scoreAt. now rewrite Ha. Qed.

Lemma holds_insert (h : Heap) (a : addr) (p : SuitabilityPoint)
    (l : list addr) (ps : list SuitabilityPoint) :
  nth_error h a = Some (Suitability p) ->
  holds Suitability h l ps ->
  holds Suitability h (insertAddr h a l) (insertByScore p ps).
Proof.
  intros Ha Hl. induction Hl as [|b q l ps Hb Hl IH]; cbn.
  - constructor; [exact Ha|constructor].
  - rewrite (holds_scoreAt h a p Ha), (holds_scoreAt h b q Hb).
    destruct (Qle_bool (score q) (score p)).
    + constructor; [exact Ha|]. constructor; [exact Hb|exact Hl].
    + constructor; [exact Hb|exact IH].
Qed.

Lemma holds_sort (h : Heap) (l : list addr) (ps : list SuitabilityPoint) :
  holds Suitability h l ps ->
  holds Suitability h (sortAddrs h l) (sortByScore ps).
Proof.
  intro Hl. induction Hl as [|a p l ps Ha Hl IH]; cbn.
  - constructor.
  - now apply holds_insert.
Qed.

(** The two arrays of a run hold the accumulator [acc] of the engine. *)
Definition represents (h : Heap) (sa av : addr) (acc : TerrainAnalysis)
  : Prop :=
  sa <> av /\ isArray h sa /\ isArray h av
  /\ holds Suitability h (elements h sa) (suitableAreas acc)
  /\ holds Avoid h (elements h av) (avoidAreas acc).

Lemma suitability_not_array (p : SuitabilityPoint) (elems : list addr) :
  Suitability p <> Array elems.
Proof. discriminate. Qed.

Lemma avoid_not_array (r : AvoidRegion) (elems : list addr) :
  Avoid r <> Array elems.
Proof. discriminate. Qed.

Lemma represents_push_suitable (h : Heap) (sa av : addr)
    (acc : TerrainAnalysis) (p : SuitabilityPoint) :
  represents h sa av acc ->
  represents (pushNew sa (Suitability p) h) sa av
             {| suitableAreas := suitableAreas acc ++ [p];
                avoidAreas := avoidAreas acc |}.
Proof.
  intros (Hne & Hsa & Hav & Hs & Ha). cbn [suitableAreas avoidAreas].
  repeat split.
  - exact Hne.
  - now apply pushNew_isArray.
  - now apply pushNew_isArray.
  - apply holds_pushNew_cell; auto using suitability_not_array.
  - rewrite pushNew_elements_other by auto.
    apply holds_pushNew; auto using avoid_not_array.
Qed.

Lemma represents_push_avoid (h : Heap) (sa av : addr)
    (acc : TerrainAnalysis) (r : AvoidRegion) :
  represents h sa av acc ->
  represents (pushNew av (Avoid r) h) sa av
             {| suitableAreas := suitableAreas acc;
                avoidAreas := avoidAreas acc ++ [r] |}.
Proof.
  intros (Hne & Hsa & Hav & Hs & Ha). cbn [suitableAreas avoidAreas].
  repeat split.
  - exact Hne.
  - now apply pushNew_isArray.
  - now apply pushNew_isArray.
  - rewrite pushNew_elements_other by auto.
    apply holds_pushNew; auto using suitability_not_array.
  - apply holds_pushNew_cell; auto using avoid_not_array.
Qed.

Section Link.

Variable random : nat -> Q.

(** One pass of the loop body on the store is one pass of the engine's. *)
Lemma samplePointS_link (d : addr) (w x y : Z) (sa av : addr) (h : Heap)
    (c : nat) (acc : TerrainAnalysis) :
  represents h sa av acc ->
  represents (heapOf (samplePointS random d w x y sa av h c)) sa av
             (fst (samplePoint random (bytesAt h d) w x y acc c))
  /\ bytesAt (heapOf (samplePointS random d w x y sa av h c)) d = bytesAt h d
  /\ cursorOf (samplePointS random d w x y sa av h c)
     = snd (samplePoint random (bytesAt h d) w x y acc c).
Proof.
  intro Hrep. unfold samplePoint, bind, Math_random, ret.
  cbv zeta. cbn [fst snd].
  set (t := classify (bytesAt h d) ((y * w + x) * 4)).
  assert (Hfirst :
    exists h1,
      (if isWater t
       then region <-- alloc (Avoid {| a_x := x; a_y := y; radius := 30 |}) ;;
            push av region
       else retS tt) h c = (tt, h1, c)
      /\ bytesAt h1 d = bytesAt h d
      /\ represents h1 sa av
           {| suitableAreas := suitableAreas acc;
              avoidAreas :=
                if isWater t
                then avoidAreas acc ++ [{| a_x := x; a_y := y; radius := 30 |}]
                else avoidAreas acc |}).
  { destruct (isWater t).
    - eexists. split; [apply alloc_push_run; apply Hrep|]. split.
      + apply pushNew_bytes; [apply Hrep|exact I].
      + now apply represents_push_avoid.
    - exists h. split; [reflexivity|]. split; [reflexivity|].
      now destruct acc. }
  destruct Hfirst as (h1 & Hrun1 & Hbytes & Hrep1).
  assert (Hrun :
    exists h2,
      samplePointS random d w x y sa av h c = (tt, h2, S c)
      /\ bytesAt h2 d = bytesAt h d
      /\ represents h2 sa av
           {| suitableAreas :=
                if Qltb 40 (baseScore t + (random c * 20 - 10))
                then suitableAreas acc
                     ++ [{| s_x := x; s_y := y;
                            score := baseScore t + (random c * 20 - 10) |}]
                else suitableAreas acc;
              avoidAreas :=
                if isWater t
                then avoidAreas acc ++ [{| a_x := x; a_y := y; radius := 30 |}]
                else avoidAreas acc |}).
  { unfold samplePointS. cbv zeta. fold t. unfold bindS at 1.
    rewrite Hrun1. unfold bindS at 1. unfold Math_randomS at 1.
    destruct (Qltb 40 (baseScore t + (random c * 20 - 10))).
    - eexists. split; [apply alloc_push_run; apply Hrep1|]. split.
      + rewrite pushNew_bytes; [exact Hbytes|apply Hrep1|exact I].
      + exact (represents_push_suitable h1 sa av _
                 {| s_x := x; s_y := y;
                    score := baseScore t + (random c * 20 - 10) |} Hrep1).
    - exists h1. split; [reflexivity|]. split; [exact Hbytes|exact Hrep1]. }
  destruct Hrun as (h2 & -> & Hbytes2 & Hrep2).
  unfold heapOf, cursorOf. cbn [fst snd].
  split; [exact Hrep2|split; [exact Hbytes2|reflexivity]].
Qed.

Lemma forEachS_link (d : addr) (sa av : addr) (bodyS : Z -> Cmd unit)
    (body : Uint8ClampedArray -> Z -> TerrainAnalysis -> Rand TerrainAnalysis) :
  (forall i h c acc,
      represents h sa av acc ->
      represents (heapOf (bodyS i h c)) sa av (fst (body (bytesAt h d) i acc c))
      /\ bytesAt (heapOf (bodyS i h c)) d = bytesAt h d
      /\ cursorOf (bodyS i h c) = snd (body (bytesAt h d) i acc c)) ->
  forall l h c acc,
    represents h sa av acc ->
    represents (heapOf (forEachS l bodyS h c)) sa av
               (fst (forEach l (body (bytesAt h d)) acc c))
    /\ bytesAt (heapOf (forEachS l bodyS h c)) d = bytesAt h d
    /\ cursorOf (forEachS l bodyS h c)
       = snd (forEach l (body (bytesAt h d)) acc c).
Proof.
  intros Hbody. induction l as [|i l IH]; intros h c acc Hrep.
  - cbn. split; [exact Hrep|split; reflexivity].
  - cbn [forEachS forEach]. unfold bindS, bind.
    destruct (Hbody i h c acc Hrep) as (Hrep1 & Hbytes1 & Hc1).
    unfold heapOf, cursorOf in *.
    destruct (bodyS i h c) as [[u h1] c1].
    destruct (body (bytesAt h d) i acc c) as [acc1 c1'].
    cbn [fst snd] in *. subst c1'.
    destruct (IH h1 c1 acc1 Hrep1) as (Hrep2 & Hbytes2 & Hc2).
    rewrite Hbytes1 in *.
    split; [exact Hrep2|split; [exact Hbytes2|exact Hc2]].
Qed.

(** The object the analyzer returns reads back as the engine's analysis,
    and the cursor stands where the engine leaves it. *)
Lemma analyzeS_link (surface : option addr) (mapSettings : MapSettings)
    (h : Heap) (c : nat) :
  analysisAt (heapOf (analyzeTerrainForPlacementS random surface mapSettings
                        h c))
             (valueOf (analyzeTerrainForPlacementS random surface mapSettings
                         h c))
  = fst (analyzeTerrainForPlacement random (option_map (bytesAt h) surface)
           mapSettings c)
  /\ cursorOf (analyzeTerrainForPlacementS random surface mapSettings h c)
     = snd (analyzeTerrainForPlacement random (option_map (bytesAt h) surface)
              mapSettings c).
Proof.
  destruct surface as [d|]; cbn [option_map].
  - remember (analyzeTerrainForPlacementS random (Some d) mapSettings h c)
      as r eqn:Hr.
    unfold analyzeTerrainForPlacementS in Hr.
    unfold bindS at 1 2 in Hr. unfold alloc at 1 2 in Hr.
    cbv iota beta in Hr.
    set (sa := List.length h) in Hr.
    set (av := List.length (h ++ [Array []])) in Hr.
    set (h2 := (h ++ [Array []]) ++ [Array []]) in Hr.
    assert (Hav : av = S sa).
    { unfold av, sa. rewrite length_app. cbn. lia. }
    assert (Hsa2 : nth_error h2 sa = Some (Array [])).
    { unfold h2, sa. rewrite <- app_assoc, nth_error_app2 by lia.
      now rewrite Nat.sub_diag. }
    assert (Hav2 : nth_error h2 av = Some (Array [])).
    { unfold h2, av. rewrite nth_error_app2 by lia.
      now rewrite Nat.sub_diag. }
    assert (Hrep : represents h2 sa av emptyAnalysis).
    { unfold represents, holds, elements. rewrite Hsa2, Hav2. cbn.
      split; [lia|]. split; [now exists []|]. split; [now exists []|].
      split; constructor. }
    assert (Hbytes : bytesAt h2 d = bytesAt h d).
    { unfold bytesAt, h2. rewrite <- app_assoc.
      destruct (nth_error h d) as [o|] eqn:Hd.
      - rewrite nth_error_app1 by (apply nth_error_Some; congruence).
        now rewrite Hd.
      - apply nth_error_None in Hd.
        rewrite nth_error_app2 by exact Hd.
        destruct (d - List.length h)%nat as [|[|[|n]]]; reflexivity. }
    unfold bindS at 1 in Hr.
    remember (forEachS (sampleAxis (width mapSettings))
                (fun x => forEachS (sampleAxis (height mapSettings))
                   (fun y => samplePointS random d (width mapSettings) x y
                               sa av)) h2 c) as r3 eqn:Hr3.
    assert (Hlink :
      represents (heapOf r3) sa av
        (fst (forEach (sampleAxis (width mapSettings))
                (fun x => forEach (sampleAxis (height mapSettings))
                   (fun y => samplePoint random (bytesAt h d)
                               (width mapSettings) x y))
                emptyAnalysis c))
      /\ cursorOf r3
         = snd (forEach (sampleAxis (width mapSettings))
                  (fun x => forEach (sampleAxis (height mapSettings))
                     (fun y => samplePoint random (bytesAt h d)
                                 (width mapSettings) x y))
                  emptyAnalysis c)).
    { rewrite <- Hbytes, Hr3.
      destruct (forEachS_link d sa av
                  (fun x => forEachS (sampleAxis (height mapSettings))
                     (fun y => samplePointS random d (width mapSettings) x y
                                 sa av))
                  (fun data x => forEach (sampleAxis (height mapSettings))
                     (fun y => samplePoint random data (width mapSettings)
                                 x y)))
        with (l := sampleAxis (width mapSettings)) (h := h2) (c := c)
             (acc := emptyAnalysis)
        as (Hrep3 & _ & Hc3); [|exact Hrep|now split].
      intros x h' c' acc' Hrep'.
      apply (forEachS_link d sa av
               (fun y => samplePointS random d (width mapSettings) x y sa av)
               (fun data y => samplePoint random data (width mapSettings) x y));
        [|exact Hrep'].
      intros y h'' c'' acc''. apply samplePointS_link. }
    clear Hr3. unfold analyzeTerrainForPlacement, bind, ret.
    destruct (forEach (sampleAxis (width mapSettings)) _ emptyAnalysis c)
      as [acc3 c3'].
    destruct r3 as [[u h3] c3]. unfold heapOf, cursorOf in Hlink.
    cbn [fst snd] in Hlink.
    destruct Hlink as ((Hne & [ls Hls] & [la Hla] & Hs & Ha) & <-).
    unfold bindS, sortInPlace in Hr. rewrite Hls in Hr. unfold alloc in Hr.
    subst r. unfold heapOf, valueOf, cursorOf. cbn [fst snd].
    split; [|reflexivity].
    set (h4 := write sa (Array (sortAddrs h3 ls)) h3).
    assert (Hlt : (sa < List.length h3)%nat).
    { apply nth_error_Some. congruence. }
    assert (Hsa4 : nth_error h4 sa = Some (Array (sortAddrs h3 ls))).
    { now apply nth_error_write_same. }
    assert (Hav4 : nth_error h4 av = Some (Array la)).
    { unfold h4. rewrite nth_error_write_other by auto. exact Hla. }
    unfold analysisAt.
    rewrite nth_error_app2, Nat.sub_diag by lia. cbn [nth_error].
    f_equal.
    + apply holds_suitableAt. unfold elements.
      rewrite nth_error_app1 by (unfold h4; rewrite write_length; lia).
      rewrite Hsa4. apply holds_app.
      apply holds_write; [apply suitability_not_array|now exists ls|].
      apply holds_sort. unfold elements in Hs. now rewrite Hls in Hs.
    + apply holds_avoidAt. unfold elements.
      rewrite nth_error_app1 by (apply nth_error_Some; congruence).
      rewrite Hav4. apply holds_app.
      apply holds_write; [apply avoid_not_array|now exists ls|].
      unfold elements in Ha. now rewrite Hla in Ha.
  - unfold analyzeTerrainForPlacementS, analyzeTerrainForPlacement.
    unfold bindS, alloc, ret, heapOf, valueOf, cursorOf, analysisAt.
    cbn [fst snd]. split; [|reflexivity].
    rewrite nth_error_app2, Nat.sub_diag by lia. cbn [nth_error].
    set (h3 := ((h ++ [Array []]) ++ [Array []]) ++ _).
    assert (Hsa : nth_error h3 (List.length h) = Some (Array [])).
    { unfold h3. rewrite <- !app_assoc, nth_error_app2 by lia.
      now rewrite Nat.sub_diag. }
    assert (Hav : nth_error h3 (List.length (h ++ [Array []]))
                  = Some (Array [])).
    { unfold h3. rewrite <- (app_assoc (h ++ [Array []])).
      rewrite nth_error_app2 by lia. now rewrite Nat.sub_diag. }
    unfold suitableAt, avoidAt, elements. now rewrite Hsa, Hav.
Qed.

(** The object the selector returns is the engine's placement for the
    arrays behind the two addresses. *)
Lemma selectorS_link (locationType : string)
    (existingLocations terrainAnalysis : addr) (mapSettings : MapSettings)
    (h : Heap) (c : nat) :
  nth_error (heapOf (findOptimalPlacementS random locationType
                       existingLocations terrainAnalysis mapSettings h c))
            (valueOf (findOptimalPlacementS random locationType
                        existingLocations terrainAnalysis mapSettings h c))
  = Some (Point (fst (findOptimalPlacement random locationType
                        (locationsAt h existingLocations)
                        (analysisAt h terrainAnalysis) mapSettings c)))
  /\ cursorOf (findOptimalPlacementS random locationType existingLocations
                 terrainAnalysis mapSettings h c)
     = snd (findOptimalPlacement random locationType
              (locationsAt h existingLocations)
              (analysisAt h terrainAnalysis) mapSettings c).
Proof.
  unfold findOptimalPlacementS.
  destruct (findOptimalPlacement random locationType _ _ mapSettings c)
    as [p c'].
  unfold alloc, heapOf, valueOf, cursorOf. cbn [fst snd].
  split; [|reflexivity].
  rewrite nth_error_app2, Nat.sub_diag by lia. reflexivity.
Qed.

End Link.

End StoreFacts.

(** A store with a pixel buffer at address 0, the array of existing
    locations at 2, and an analysis object at 7 whose single suitable point
    lies within 80 of the existing location. *)
Definition witnessStore : Store.Heap :=
  [Store.Bytes (uniformData 80 80 120 120 120);
   Store.Location {| loc_x := 180; loc_y := 100; loc_type := "shop" |};
   Store.Array [1%nat];
   Store.Suitability {| s_x := 100; s_y := 100; score := 90 |};
   Store.Array [3%nat];
   Store.Avoid {| a_x := 130; a_y := 100; radius := 30 |};
   Store.Array [5%nat];
   Store.Analysis 4%nat 6%nat].

(** C9: run on a store of objects, from the same store and the same cursor
    and with two random streams that yield the same draws wherever a run
    reads them, [analyzeTerrainForPlacement] returns the same object and
    leaves the same store and cursor, and so does [findOptimalPlacement];
    every object that was in the store before a run (the pixel buffer, the
    array of existing locations and its elements, the analysis and its
    arrays, and any other object) stands unchanged after it, the pushes and
    the in-place sort touching the arrays the run itself created only; and
    the object returned reads back as the result of the engine on the
    values behind the addresses. *)
Theorem runs_agree_and_leave_the_store
    (random1 random2 : nat -> Q) (surface : option Store.addr)
    (locationType : string) (existingLocations terrainAnalysis : Store.addr)
    (mapSettings : MapSettings) (h : Store.Heap) (c : nat) :
  (forall k, (c <= k < c + List.length (gridPoints mapSettings))%nat ->
             random1 k = random2 k) ->
  (forall k, (c <= k < c + (2 * 50 + 2))%nat -> random1 k = random2 k) ->
  let analysis1 :=
    Store.analyzeTerrainForPlacementS random1 surface mapSettings h c in
  let analysis2 :=
    Store.analyzeTerrainForPlacementS random2 surface mapSettings h c in
  let placement1 :=
    Store.findOptimalPlacementS random1 locationType existingLocations
      terrainAnalysis mapSettings h c in
  let placement2 :=
    Store.findOptimalPlacementS random2 locationType existingLocations
      terrainAnalysis mapSettings h c in
  analysis1 = analysis2
  /\ placement1 = placement2
  /\ Store.unchanged h (Store.heapOf analysis1)
  /\ Store.unchanged h (Store.heapOf placement1)
  /\ Store.analysisAt (Store.heapOf analysis1) (Store.valueOf analysis1)
     = fst (analyzeTerrainForPlacement random1
              (option_map (Store.bytesAt h) surface) mapSettings c)
  /\ Store.cursorOf analysis1
     = snd (analyzeTerrainForPlacement random1
              (option_map (Store.bytesAt h) surface) mapSettings c)
  /\ nth_error (Store.heapOf placement1) (Store.valueOf placement1)
     = Some (Store.Point
               (fst (findOptimalPlacement random1 locationType
                       (Store.locationsAt h existingLocations)
                       (Store.analysisAt h terrainAnalysis) mapSettings c)))
  /\ Store.cursorOf placement1
     = snd (findOptimalPlacement random1 locationType
              (Store.locationsAt h existingLocations)
              (Store.analysisAt h terrainAnalysis) mapSettings c).
Proof.
  intros Hgrid Hsel. cbv zeta.
  split; [now apply StoreFacts.analyzeS_agree|].
  split; [now apply StoreFacts.selectorS_agree|].
  split; [apply StoreFacts.extends_unchanged, StoreFacts.analyze_extends|].
  split; [apply StoreFacts.extends_unchanged, StoreFacts.selector_extends|].
  split; [apply StoreFacts.analyzeS_link|].
  split; [apply StoreFacts.analyzeS_link|].
  split; apply StoreFacts.selectorS_link.
Qed.

Lemma runs_agree_and_leave_the_store_witness :
  let mapSettings := {| width := 80; height := 80 |} in
  let random1 := rnd_const (1 # 2) in
  let random2 := rnd_prefix 200 (1 # 2) 0 in
  random1 200%nat <> random2 200%nat
  /\ Store.analyzeTerrainForPlacementS random1 (Some 0%nat) mapSettings
       witnessStore 0%nat
     = Store.analyzeTerrainForPlacementS random2 (Some 0%nat) mapSettings
         witnessStore 0%nat
  /\ Store.findOptimalPlacementS random1 "npc" 2%nat 7%nat mapSettings
       witnessStore 0%nat
     = Store.findOptimalPlacementS random2 "npc" 2%nat 7%nat mapSettings
         witnessStore 0%nat
  /\ Store.unchanged witnessStore
       (Store.heapOf (Store.analyzeTerrainForPlacementS random1 (Some 0%nat)
                        mapSettings witnessStore 0%nat))
  /\ Store.unchanged witnessStore
       (Store.heapOf (Store.findOptimalPlacementS random1 "npc" 2%nat 7%nat
                        mapSettings witnessStore 0%nat)).
Proof.
  cbv zeta. split; [discriminate|].
  assert (Hgrid : forall k,
            (0 <= k < 0 + List.length
                          (gridPoints {| width := 80; height := 80 |}))%nat ->
            rnd_const (1 # 2) k = rnd_prefix 200 (1 # 2) 0 k).
  { intros k Hk. apply rnd_prefix_agrees.
    change (List.length (gridPoints {| width := 80; height := 80 |}))
      with 4%nat in Hk. lia. }
  assert (Hsel : forall k, (0 <= k < 0 + (2 * 50 + 2))%nat ->
            rnd_const (1 # 2) k = rnd_prefix 200 (1 # 2) 0 k).
  { intros k Hk. apply rnd_prefix_agrees. lia. }
  destruct (runs_agree_and_leave_the_store (rnd_const (1 # 2))
              (rnd_prefix 200 (1 # 2) 0) (Some 0%nat) "npc" 2%nat 7%nat
              {| width := 80; height := 80 |} witnessStore 0%nat Hgrid Hsel)
    as (Ha & Hf & Hua & Huf & _).
  split; [exact Ha|]. split; [exact Hf|]. split; [exact Hua|exact Huf].
Defined.



(** Two samples on an empty buffer with the draws 0 and 1/4: the points are
    pushed in the order of the loops, at addresses 3 and 4, and the sort
    reorders the array at address 1 where it stands. *)
Example analyzer_sorts_its_own_array :
  Store.analyzeTerrainForPlacementS (fun k => Z.of_nat k # 4) (Some 0%nat)
    {| width := 80; height := 60 |} [Store.Bytes []] 0%nat
  = (5%nat,
     [Store.Bytes []; Store.Array [4%nat; 3%nat]; Store.Array [];
      Store.Suitability {| s_x := 20; s_y := 20; score := 360 # 4 |};
      Store.Suitability {| s_x := 40; s_y := 20; score := 380 # 4 |};
      Store.Analysis 1%nat 2%nat],
     2%nat).
Proof. vm_compute. reflexivity. Qed.

(** * Further properties of the engine *)

Lemma selector_inBounds (random : nat -> Q) (locationType : string)
    (existingLocations : list MapLocation) (terrainAnalysis : TerrainAnalysis)
    (mapSettings : MapSettings) (c : nat) :
  unitStream random ->
  (100 <= width mapSettings)%Z -> (100 <= height mapSettings)%Z ->
  inBounds mapSettings
    (fst (findOptimalPlacement random locationType existingLocations
            terrainAnalysis mapSettings c)).
Proof.
  intros Hunit Hw Hh. unfold findOptimalPlacement, bind.
  destruct (List.length (suitableAreas terrainAnalysis) =? 0)%nat.
  - pose proof (randomAttempts_run random mapSettings 50 existingLocations c)
      as Hrun.
    destruct (randomAttempts random 50 existingLocations mapSettings c)
      as [[p|] c']; [|now apply randomPlacement_inBounds].
    destruct Hrun as [k [_ [Heq _]]]. unfold ret.
    replace p with (fst (randomPlacement random mapSettings (c + 2 * k)%nat))
      by now rewrite <- Heq.
    now apply randomPlacement_inBounds.
  - pose proof (terrainSearch_run random mapSettings
                  (suitableAreas terrainAnalysis) locationType
                  existingLocations (avoidAreas terrainAnalysis) c) as Hrun.
    destruct (terrainSearch random (suitableAreas terrainAnalysis) locationType
                existingLocations (avoidAreas terrainAnalysis) mapSettings c)
      as [[p|] c']; [|now apply randomPlacement_inBounds].
    destruct Hrun as [before [area [after [_ [_ [_ Heq]]]]]]. unfold ret.
    replace p with (fst (jitteredPlacement random mapSettings area c))
      by now rewrite <- Heq.
    now apply jitteredPlacement_inBounds.
Qed.

Lemma tooClose_nearly (existingLocations : list MapLocation) (x y : Q) :
  tooClose existingLocations x y = true ->
  nearlyWithin80 existingLocations x y = true.
Proof.
  unfold tooClose, nearlyWithin80. rewrite !existsb_exists.
  intros [loc [Hin Hlt]]. exists loc. split; [exact Hin|].
  unfold sqrt_lt in Hlt. apply andb_true_iff in Hlt. destruct Hlt as [_ Hlt].
  apply Qltb_true in Hlt. apply Qle_bool_iff.
  apply Qlt_le_weak. eapply Qlt_le_trans; [exact Hlt|]. now compute.
Qed.

(** Without suitable areas the selector's result keeps its distance from
    every existing location (squared distance at least 6399) unless all fifty
    points of its search were close to one (squared distance at most
    6401). *)
Lemma selector_random_search (random : nat -> Q) (locationType : string)
    (existingLocations : list MapLocation) (terrainAnalysis : TerrainAnalysis)
    (mapSettings : MapSettings) (c : nat) :
  suitableAreas terrainAnalysis = [] ->
  let p := fst (findOptimalPlacement random locationType existingLocations
                  terrainAnalysis mapSettings c) in
  Forall (fun loc => 6399 <= distanceSq (loc_x loc) (loc_y loc) (p_x p) (p_y p))
         existingLocations
  \/ allAttempts nearlyWithin80 random existingLocations mapSettings c = true.
Proof.
  intro Hempty. cbv zeta. unfold findOptimalPlacement, bind. rewrite Hempty.
  cbn [List.length Nat.eqb].
  pose proof (randomAttempts_run random mapSettings 50 existingLocations c)
    as Hrun.
  destruct (randomAttempts random 50 existingLocations mapSettings c)
    as [[p|] c'].
  - destruct Hrun as [k [_ [_ Hfar]]]. left. unfold ret. cbn [fst].
    apply tooClose_false in Hfar. eapply Forall_impl; [|exact Hfar].
    intros loc Hloc. cbv beta in Hloc. eapply Qle_trans; [|exact Hloc].
    now compute.
  - destruct Hrun as [_ Hall]. right. unfold allAttempts.
    apply forallb_forall. intros k Hk. apply in_seq in Hk.
    cbv zeta. apply tooClose_nearly.
    specialize (Hall k ltac:(lia)). cbv zeta in Hall.
    rewrite randomPlacement_run in Hall. exact Hall.
Qed.

Lemma at_in_range (data : Uint8ClampedArray) (i : Z) :
  (0 <= i < Z.of_nat (List.length data))%Z -> exists v, at_ data i = Some v.
Proof.
  intro Hi. unfold at_. destruct (Z.ltb_spec i 0); [lia|].
  destruct (nth_error data (Z.to_nat i)) as [v|] eqn:E; [now exists v|].
  apply nth_error_None in E. lia.
Qed.

(** X17: the analyzer never reads past the image data: when the data holds four
    bytes for each of the width times height pixels, every sample point
    finds its three colour channels. *)
Theorem analyzer_reads_inside_the_image (data : Uint8ClampedArray)
    (mapSettings : MapSettings) :
  Z.of_nat (List.length data)
  = (4 * (width mapSettings * height mapSettings))%Z ->
  Forall (fun p => exists r g b,
            pixelAt data (width mapSettings) p = Some (r, g, b))
         (gridPoints mapSettings).
Proof.
  intro Hlen. apply Forall_forall. intros p Hp.
  apply gridPoints_on_surface in Hp. unfold pixelAt.
  destruct (at_in_range data ((snd p * width mapSettings + fst p) * 4))
    as [r Hr]; [lia|].
  destruct (at_in_range data ((snd p * width mapSettings + fst p) * 4 + 1))
    as [g Hg]; [lia|].
  destruct (at_in_range data ((snd p * width mapSettings + fst p) * 4 + 2))
    as [b Hb]; [lia|].
  rewrite Hr, Hg, Hb. now exists r, g, b.
Qed.

Lemma uniformData_length (w h : nat) (r g b : Z) :
  List.length (uniformData w h r g b) = (4 * (w * h))%nat.
Proof.
  unfold uniformData. induction (w * h)%nat as [|n IH]; [reflexivity|].
  cbn [repeat List.concat]. rewrite length_app, IH. cbn [List.length]. lia.
Qed.

Lemma analyzer_reads_inside_the_image_witness :
  Z.of_nat (List.length (uniformData 80 80 1 2 3)) = (4 * (80 * 80))%Z
  /\ Forall (fun p => exists r g b,
               pixelAt (uniformData 80 80 1 2 3) 80 p = Some (r, g, b))
            (gridPoints {| width := 80; height := 80 |}).
Proof.
  assert (Hlen : Z.of_nat (List.length (uniformData 80 80 1 2 3))
                 = (4 * (width {| width := 80; height := 80 |}
                         * height {| width := 80; height := 80 |}))%Z).
  { rewrite uniformData_length. reflexivity. }
  split; [exact Hlen|].
  exact (analyzer_reads_inside_the_image (uniformData 80 80 1 2 3)
           {| width := 80; height := 80 |} Hlen).
Defined.

Lemma sampleAxis_small (extent : Z) : (extent <= 40)%Z -> sampleAxis extent = [].
Proof.
  intro H. unfold sampleAxis.
  destruct (Z.to_nat extent) as [|n]; [reflexivity|].
  cbn [sampleLoop]. unfold sampleSize.
  destruct (Z.ltb_spec 20 (extent - 20)); [lia | reflexivity].
Qed.

(** X18: on a map at most 40 wide or at most 40 high the sampling grid is empty:
    the analyzer returns no suitable area and no avoid region and makes no
    draw, whatever the image, so placement falls back to the random
    search. *)
Theorem small_maps_have_no_samples (random : nat -> Q)
    (terrainImage : option Uint8ClampedArray) (mapSettings : MapSettings)
    (c : nat) :
  (width mapSettings <= 40)%Z \/ (height mapSettings <= 40)%Z ->
  analyzeTerrainForPlacement random terrainImage mapSettings c
  = (emptyAnalysis, c).
Proof.
  intro Hsmall. destruct terrainImage as [data|]; [|reflexivity].
  rewrite analyze_run.
  assert (Hgrid : gridPoints mapSettings = []).
  { unfold gridPoints. destruct Hsmall as [H|H];
      rewrite (sampleAxis_small _ H); [reflexivity|].
    induction (sampleAxis (width mapSettings)); [reflexivity | assumption]. }
  rewrite Hgrid. cbn. now rewrite Nat.add_0_r.
Qed.

Lemma small_maps_have_no_samples_witness :
  (width {| width := 40; height := 800 |} <= 40)%Z
  /\ analyzeTerrainForPlacement (rnd_const (1 # 2))
       (Some (uniformData 40 800 0 0 255)) {| width := 40; height := 800 |}
       0%nat
     = (emptyAnalysis, 0%nat).
Proof.
  assert (H : (width {| width := 40; height := 800 |} <= 40)%Z)
    by (cbn; lia).
  split; [exact H|].
  exact (small_maps_have_no_samples (rnd_const (1 # 2))
           (Some (uniformData 40 800 0 0 255))
           {| width := 40; height := 800 |} 0%nat (or_introl H)).
Defined.

Definition pointOf (a : SuitabilityPoint) : Z * Z := (s_x a, s_y a).

Lemma keptFrom_points (random : nat -> Q) (data : Uint8ClampedArray) (w : Z)
    (pts : list (Z * Z)) (c : nat) (a : SuitabilityPoint) :
  In a (keptFrom random data w pts c) ->
  In (pointOf a) pts /\ 40 < score a.
Proof.
  revert c. induction pts as [|p pts IH]; intros c Hin; [destruct Hin|].
  cbn [keptFrom] in Hin. apply in_app_or in Hin. destruct Hin as [Hin|Hin].
  - destruct (Qltb 40 (jitteredScore random data w p c)) eqn:E;
      [|destruct Hin].
    destruct Hin as [<-|[]]. apply Qltb_true in E.
    split; [left; now destruct p | exact E].
  - destruct (IH _ Hin) as [Hp Hs]. split; [now right | exact Hs].
Qed.

Lemma keptFrom_NoDup (random : nat -> Q) (data : Uint8ClampedArray) (w : Z)
    (pts : list (Z * Z)) (c : nat) :
  NoDup pts -> NoDup (map pointOf (keptFrom random data w pts c)).
Proof.
  intro Hnd. revert c. induction Hnd as [|p pts Hp Hnd IH]; intro c;
    [constructor|].
  cbn [keptFrom]. rewrite map_app.
  destruct (Qltb 40 (jitteredScore random data w p c)); cbn [map app];
    [|apply IH].
  constructor; [|apply IH].
  intro Hin. apply in_map_iff in Hin. destruct Hin as [a [Ha Hin]].
  apply keptFrom_points in Hin. destruct Hin as [Hin _].
  rewrite Ha in Hin. unfold pointOf in Hin. cbn in Hin.
  destruct p. contradiction.
Qed.

(** X19: the suitable areas an analysis returns are sample points of the grid,
    at least 20 inside the map on every side and on multiples of 20, each
    with a score above 40, and no sample point is returned twice. *)
Theorem suitable_areas_are_kept_samples (random : nat -> Q)
    (data : Uint8ClampedArray) (mapSettings : MapSettings) (c : nat) :
  let areas :=
    suitableAreas
      (fst (analyzeTerrainForPlacement random (Some data) mapSettings c)) in
  Forall (fun a =>
            In (s_x a, s_y a) (gridPoints mapSettings)
            /\ (20 <= s_x a < width mapSettings - 20)%Z
            /\ (20 <= s_y a < height mapSettings - 20)%Z
            /\ (s_x a mod 20 = 0)%Z /\ (s_y a mod 20 = 0)%Z
            /\ 40 < score a)
         areas
  /\ NoDup (map (fun a => (s_x a, s_y a)) areas)
  /\ (List.length areas <= List.length (gridPoints mapSettings))%nat.
Proof.
  cbv zeta. rewrite analyze_run. cbn [fst suitableAreas].
  set (kept := keptFrom random data (width mapSettings)
                        (gridPoints mapSettings) c).
  pose proof (sortByScore_perm kept) as Hperm.
  assert (Hnd : NoDup (map pointOf (sortByScore kept))).
  { eapply Permutation_NoDup;
      [apply Permutation_map; symmetry; exact Hperm|].
    apply keptFrom_NoDup, gridPoints_NoDup. }
  split; [|split; [exact Hnd|]].
  - apply Forall_forall. intros a Ha.
    apply (Permutation_in _ Hperm) in Ha.
    apply keptFrom_points in Ha. destruct Ha as [Hp Hs].
    unfold pointOf in Hp. split; [exact Hp|].
    unfold gridPoints in Hp. apply in_prod_iff in Hp.
    rewrite !sampleAxis_spec in Hp. unfold sampleSize in Hp. tauto.
  - rewrite <- (length_map pointOf).
    apply NoDup_incl_length; [exact Hnd|].
    intros p Hp. apply in_map_iff in Hp. destruct Hp as [a [<- Ha]].
    apply (Permutation_in _ Hperm) in Ha.
    now apply keptFrom_points in Ha.
Qed.

Lemma distanceSq_self (x y : Q) : distanceSq x y x y == 0.
Proof. unfold distanceSq. ring. Qed.

(** X20: the selector never accepts a water sample of the analysis it is given:
    a suitable area whose pixel is water lies at the centre of one of the
    analysis' own avoid regions, so it fails the selector's test for every
    location type and every set of existing locations. *)
Theorem water_samples_never_qualify (random : nat -> Q)
    (data : Uint8ClampedArray) (mapSettings : MapSettings) (c : nat)
    (locationType : string) (existingLocations : list MapLocation) :
  let analysis :=
    fst (analyzeTerrainForPlacement random (Some data) mapSettings c) in
  Forall (fun a =>
            waterPixel (pixelAt data (width mapSettings) (s_x a, s_y a))
            && qualifies locationType existingLocations
                         (avoidAreas analysis) a = false)
         (suitableAreas analysis).
Proof.
  cbv zeta. rewrite analyze_run. cbn [fst suitableAreas avoidAreas].
  apply Forall_forall. intros a Ha.
  apply (Permutation_in _ (sortByScore_perm _)) in Ha.
  apply keptFrom_points in Ha. destruct Ha as [Hp _]. unfold pointOf in Hp.
  destruct (waterPixel (pixelAt data (width mapSettings) (s_x a, s_y a)))
    eqn:Hw; [|reflexivity].
  cbn [andb]. unfold qualifies.
  replace (inAvoidArea _ (inject_Z (s_x a)) (inject_Z (s_y a))) with true;
    [now rewrite andb_false_r|].
  symmetry. unfold inAvoidArea. apply existsb_exists.
  exists (regionAt (s_x a, s_y a)). split.
  - apply in_map, filter_In. now split.
  - cbn [regionAt a_x a_y radius fst snd]. unfold sqrt_lt.
    apply andb_true_iff. split; [reflexivity|].
    apply Qltb_true. rewrite distanceSq_self. reflexivity.
Qed.

(** * The dashboard: properties *)

Module DashboardFacts.

Import Dashboard.

(** ** Invariants of the reachable states *)

Section Reachable.

Variable toLowerCase : JsString -> JsString.
Variable random : nat -> Q.
Variable now : nat -> N.

Let step := Dashboard.step toLowerCase random now.
Let run := Dashboard.run toLowerCase random now.

(** An invariant of [step] that holds initially holds after every run. *)
Lemma run_invariant (P : State -> Prop) :
  P initialState ->
  (forall s a, P s -> P (step s a)) ->
  forall actions, P (run actions initialState).
Proof.
  intros Hinit Hstep actions. unfold run, Dashboard.run.
  generalize initialState Hinit.
  induction actions as [|a actions IH]; intros s Hs; [exact Hs|].
  cbn [fold_left]. apply IH, Hstep, Hs.
Qed.

Lemma editSelected_run (s : State) (selected : Location) :
  selectedLocation s = Some selected ->
  editSelected s =
  setSelectedLocation None
    (setLocations
       (fun prev =>
          filter (fun loc => negb (l_id loc =? l_id selected)%string) prev)
       (setIsAddingLocation true
          (setNewLocation
             (fun _ => {| n_type := l_type selected;
                          n_name := l_name selected;
                          n_description := l_description selected;
                          n_x := l_x selected;
                          n_y := l_y selected |}) s))).
Proof.
  intro H. unfold editSelected. rewrite H. unfold deleteLocation.
  cbn [fst selectedLocation setIsAddingLocation setNewLocation].
  now rewrite H, String.eqb_refl.
Qed.

Lemma generateLocations_frame (response : option (list GeneratedItem))
    (s : State) (c : nat) :
  let s' := fst (fst (generateLocations random now response s c)) in
  zoom s' = zoom s /\ mapSettings s' = mapSettings s
  /\ selectedLocation s' = selectedLocation s
  /\ exists newLocations, locations s' = locations s ++ newLocations.
Proof.
  cbv zeta. unfold generateLocations, bind, ret.
  destruct response as [items|].
  - destruct (analyzeTerrainForPlacement random (terrainPixels s)
                (mapSettings s) c) as [analysis c1].
    destruct (placeEach random now items 0 (locations s) [] analysis
                (mapSettings s) c1) as [newLocations c2].
    cbn. repeat split. now exists newLocations.
  - cbn. repeat split. exists []. now rewrite app_nil_r.
Qed.

Lemma step_zoom (s : State) (a : Action) :
  (1 # 10) <= zoom s /\ zoom s <= 3 ->
  (1 # 10) <= zoom (step s a) /\ zoom (step s a) <= 3.
Proof.
  intros [Hlo Hhi].
  destruct a; cbn [step Dashboard.step];
    try (cbn; split; assumption).
  - cbn. unfold Math_min.
    destruct (Qle_bool (zoom s + (1 # 10)) 3) eqn:E.
    + apply Qle_bool_iff in E. split; [lra | exact E].
    + split; lra.
  - cbn. unfold Math_max.
    destruct (Qle_bool (zoom s - (1 # 10)) (1 # 10)) eqn:E.
    + split; lra.
    + apply Qle_bool_false in E. split; lra.
  - cbn. split; lra.
  - unfold handleCanvasClick. destruct canvas; [|now split].
    destruct (isAddingLocation s); cbn; now split.
  - unfold handleMouseDown. destruct (isAddingLocation s); cbn; now split.
  - unfold handleMouseMove. destruct (negb (isDragging s)); cbn; now split.
  - unfold addLocation. destruct (negb _); cbn; now split.
  - unfold deleteLocation. destruct (selectedLocation s) as [sel|];
      [destruct (l_id sel =? id)%string|]; cbn; now split.
  - destruct (selectedLocation s) as [sel|] eqn:E;
      [rewrite (editSelected_run s sel E) | unfold editSelected; rewrite E];
      cbn; now split.
  - unfold selectListed. destruct (nth_error _ _); cbn; now split.
  - destruct (generateLocations_frame response s cursor) as [Hz _].
    cbv zeta in Hz. rewrite Hz. now split.
Qed.

Lemma parsedOr_nonzero (parsed : option Z) (fallback : Z) :
  fallback <> 0%Z -> parsedOr parsed fallback <> 0%Z.
Proof.
  intro Hf. unfold parsedOr. destruct parsed as [n|]; [|exact Hf].
  destruct (Z.eqb_spec n 0); assumption.
Qed.

Lemma step_dimensions (s : State) (a : Action) :
  width (mapSettings s) <> 0%Z /\ height (mapSettings s) <> 0%Z ->
  width (mapSettings (step s a)) <> 0%Z
  /\ height (mapSettings (step s a)) <> 0%Z.
Proof.
  intros [Hw Hh].
  destruct a; cbn [step Dashboard.step];
    try (cbn; split; assumption).
  - unfold handleCanvasClick. destruct canvas; [|now split].
    destruct (isAddingLocation s); cbn; now split.
  - unfold handleMouseDown. destruct (isAddingLocation s); cbn; now split.
  - unfold handleMouseMove. destruct (negb (isDragging s)); cbn; now split.
  - cbn. split; [apply parsedOr_nonzero; lia | exact Hh].
  - cbn. split; [exact Hw | apply parsedOr_nonzero; lia].
  - unfold addLocation. destruct (negb _); cbn; now split.
  - unfold deleteLocation. destruct (selectedLocation s) as [sel|];
      [destruct (l_id sel =? id)%string|]; cbn; now split.
  - destruct (selectedLocation s) as [sel|] eqn:E;
      [rewrite (editSelected_run s sel E) | unfold editSelected; rewrite E];
      cbn; now split.
  - unfold selectListed. destruct (nth_error _ _); cbn; now split.
  - destruct (generateLocations_frame response s cursor) as [_ [Hm _]].
    cbv zeta in Hm. rewrite Hm. now split.
Qed.

(** The selected location, when there is one, carries the id of a location
    of the list. *)
Definition selectionListed (s : State) : Prop :=
  match selectedLocation s with
  | Some selected => In (l_id selected) (map l_id (locations s))
  | None => True
  end.

Lemma filter_other_ids (id other : string) (l : list Location) :
  other <> id -> In other (map l_id l) ->
  In other (map l_id (filter (fun loc => negb (l_id loc =? id)%string) l)).
Proof.
  intros Hne Hin. apply in_map_iff in Hin. destruct Hin as [loc [Hid Hl]].
  apply in_map_iff. exists loc. split; [exact Hid|].
  apply filter_In. split; [exact Hl|].
  apply negb_true_iff, String.eqb_neq. congruence.
Qed.

Lemma toggle_ids (id : string) (s : State) :
  map l_id (locations (toggleLocationVisibility id s)) = map l_id (locations s).
Proof.
  cbn. rewrite map_map. apply map_ext. intro loc.
  now destruct (l_id loc =? id)%string.
Qed.

Lemma step_selectionListed (s : State) (a : Action) :
  selectionListed s -> selectionListed (step s a).
Proof.
  unfold selectionListed. intro H.
  destruct a; cbn [step Dashboard.step]; try exact H.
  - unfold handleCanvasClick. destruct canvas; [|exact H].
    destruct (isAddingLocation s); [exact H|]. cbn.
    destruct (find _ (locations s)) as [sel|] eqn:E; [|exact I].
    apply find_some in E. apply in_map. tauto.
  - unfold handleMouseDown. destruct (isAddingLocation s); exact H.
  - unfold handleMouseMove. destruct (negb (isDragging s)); exact H.
  - unfold addLocation. destruct (negb _); [exact H|]. cbn.
    destruct (selectedLocation s); [|exact I].
    rewrite map_app. apply in_or_app. now left.
  - unfold deleteLocation. destruct (selectedLocation s) as [sel|] eqn:E.
    + destruct (String.eqb_spec (l_id sel) id) as [Heq|Hne]; cbn; [exact I|].
      rewrite E. now apply filter_other_ids.
    + cbn. now rewrite E.
  - cbn [selectedLocation toggleLocationVisibility setLocations].
    destruct (selectedLocation s); [|exact I].
    rewrite toggle_ids. exact H.
  - destruct (selectedLocation s) as [sel|] eqn:E;
      [rewrite (editSelected_run s sel E) | unfold editSelected; rewrite E];
      [exact I | now rewrite E].
  - exact I.
  - unfold selectListed.
    destruct (nth_error _ i) as [location|] eqn:E; [|exact H]. cbn.
    apply nth_error_In in E. unfold filteredLocations in E.
    apply filter_In in E. apply in_map. tauto.
  - destruct (generateLocations_frame response s cursor)
      as [_ [_ [Hsel [newLocations Hloc]]]].
    cbv zeta in Hsel, Hloc. rewrite Hsel, Hloc.
    destruct (selectedLocation s); [|exact I].
    rewrite map_app. apply in_or_app. now left.
Qed.

(** X1: the zoom buttons keep the zoom factor in [1/10, 3] from its initial 1,
    whatever else happens in between; in particular it is never 0, so the
    divisions by it in the click and drag handlers are defined. *)
Theorem zoom_stays_in_range (actions : list Action) :
  (1 # 10) <= zoom (run actions initialState)
  /\ zoom (run actions initialState) <= 3.
Proof.
  apply (run_invariant (fun s => (1 # 10) <= zoom s /\ zoom s <= 3)).
  - cbn. split; lra.
  - apply step_zoom.
Qed.

(** X2: the map's width and height are never 0: the size inputs fall back to
    1200 and 800 when the typed value parses to 0 or to nothing. *)
Theorem dimensions_never_zero (actions : list Action) :
  width (mapSettings (run actions initialState)) <> 0%Z
  /\ height (mapSettings (run actions initialState)) <> 0%Z.
Proof.
  apply (run_invariant
           (fun s => width (mapSettings s) <> 0%Z
                     /\ height (mapSettings s) <> 0%Z)).
  - cbn. split; lia.
  - apply step_dimensions.
Qed.

(** X3: the selection never dangles: in every reachable state the selected
    location, if any, has the id of a location still in the list. *)
Theorem selection_never_dangles (actions : list Action) :
  match selectedLocation (run actions initialState) with
  | Some selected =>
      In (l_id selected) (map l_id (locations (run actions initialState)))
  | None => True
  end.
Proof.
  apply (run_invariant selectionListed).
  - exact I.
  - apply step_selectionListed.
Qed.

End Reachable.

(** ** Clicking and dragging on the canvas *)

(** The map point [handleCanvasClick] computes for a mouse event. *)
Definition clickedPoint (rect : DOMRect) (event : MouseEvent) (s : State)
  : Point :=
  {| pt_x := (clientX event - rect_left rect - pt_x (panOffset s) * zoom s)
             / zoom s;
     pt_y := (clientY event - rect_top rect - pt_y (panOffset s) * zoom s)
             / zoom s |}.

Lemma sqrt_le_12 (d : Q) : sqrt_le d 12 = true <-> d <= 144.
Proof.
  unfold sqrt_le. replace (Qle_bool 0 12) with true by reflexivity.
  cbn [andb]. rewrite Qle_bool_iff.
  split; intro H; (eapply Qle_trans; [exact H|]); now compute.
Qed.

Lemma hit_true (x y : Q) (location : Location) :
  hit x y location = true <->
  distanceSq (l_x location) (l_y location) x y <= 144
  /\ l_visible location = true.
Proof.
  unfold hit. now rewrite andb_true_iff, sqrt_le_12.
Qed.

Lemma hit_false (x y : Q) (location : Location) :
  hit x y location = false ->
  l_visible location = false
  \/ 144 < distanceSq (l_x location) (l_y location) x y.
Proof.
  unfold hit. rewrite andb_false_iff. intros [H|H]; [right | now left].
  apply Qnot_le_lt. intro Hle. apply sqrt_le_12 in Hle. congruence.
Qed.


Lemma hit_reach (x y : Q) (location : Location) :
  hit x y location = true ->
  distanceSq (l_x location) (l_y location) x y <= 145
  /\ l_visible location = true.
Proof.
  intro H. apply hit_true in H. destruct H as [Hd Hv].
  split; [|exact Hv]. eapply Qle_trans; [exact Hd|]. now compute.
Qed.

Lemma hit_miss (x y : Q) (location : Location) :
  hit x y location = false ->
  l_visible location = false
  \/ 143 < distanceSq (l_x location) (l_y location) x y.
Proof.
  intro H. apply hit_false in H. destruct H as [H|H]; [now left | right].
  eapply Qlt_trans; [|exact H]. reflexivity.
Qed.

(** X4: a click outside the adding mode selects a visible location of the
    list that lies within 12 units of the clicked map point, the first such in
    list order, and never a hidden one; when it clears the selection, every
    location is hidden or about 12 units or more away.  The distances are
    stated up to rounding: squared distance at most 145 for the selected
    location, above 143 for the ones passed over.  The list of locations is
    left as it is. *)
Theorem click_selects_a_visible_location_in_reach (rect : DOMRect)
    (event : MouseEvent) (s : State) :
  isAddingLocation s = false ->
  let s' := handleCanvasClick (Some rect) event s in
  let p := clickedPoint rect event s in
  locations s' = locations s
  /\ match selectedLocation s' with
     | Some selected =>
         exists before after,
           locations s = before ++ selected :: after
           /\ l_visible selected = true
           /\ distanceSq (l_x selected) (l_y selected) (pt_x p) (pt_y p) <= 145
           /\ Forall (fun l => l_visible l = false
                               \/ 143 < distanceSq (l_x l) (l_y l)
                                                   (pt_x p) (pt_y p)) before
     | None =>
         Forall (fun l => l_visible l = false
                          \/ 143 < distanceSq (l_x l) (l_y l)
                                              (pt_x p) (pt_y p))
                (locations s)
     end.
Proof.
  intro Hadd. cbv zeta. unfold handleCanvasClick. rewrite Hadd.
  cbn [locations selectedLocation setSelectedLocation clickedPoint pt_x pt_y].
  split; [reflexivity|].
  set (x := (clientX event - rect_left rect - pt_x (panOffset s) * zoom s)
            / zoom s).
  set (y := (clientY event - rect_top rect - pt_y (panOffset s) * zoom s)
            / zoom s).
  induction (locations s) as [|l ls IH]; cbn [find]; [constructor|].
  destruct (hit x y l) eqn:E.
  - apply hit_reach in E. exists [], ls. cbn. intuition.
  - apply hit_miss in E. destruct (find (hit x y) ls) as [selected|].
    + destruct IH as [before [after [Heq [Hv [Hd Hb]]]]].
      exists (l :: before), after. rewrite Heq. cbn.
      repeat split; try assumption. now constructor.
    + now constructor.
Qed.

Lemma click_selects_a_visible_location_in_reach_witness :
  let l := {| l_id := "location-1"; l_type := "shop"; l_name := [65%N];
              l_description := []; l_x := 100; l_y := 100;
              l_visible := true |} in
  let s := setLocations (fun _ => [l]) initialState in
  let s' := handleCanvasClick (Some {| rect_left := 10; rect_top := 20 |})
              {| clientX := 115; clientY := 125 |} s in
  isAddingLocation s = false
  /\ locations s' = locations s
  /\ selectedLocation s' = Some l.
Proof.
  cbv zeta. split; [reflexivity|].
  split; [|reflexivity].
  exact (proj1 (click_selects_a_visible_location_in_reach
                  {| rect_left := 10; rect_top := 20 |}
                  {| clientX := 115; clientY := 125 |}
                  (setLocations
                     (fun _ => [{| l_id := "location-1"; l_type := "shop";
                                   l_name := [65%N]; l_description := [];
                                   l_x := 100; l_y := 100;
                                   l_visible := true |}]) initialState)
                  eq_refl)).
Defined.



(** While a drag is going on, [panOffset * zoom - dragStart] does not
    change. *)
Lemma move_keeps_offset (event : MouseEvent) (s : State) :
  ~ zoom s == 0 ->
  isDragging s = true ->
  let s' := handleMouseMove event s in
  pt_x (panOffset s') * zoom s - pt_x (dragStart s')
  == pt_x (panOffset s) * zoom s - pt_x (dragStart s)
  /\ pt_y (panOffset s') * zoom s - pt_y (dragStart s')
     == pt_y (panOffset s) * zoom s - pt_y (dragStart s)
  /\ dragStart s' = {| pt_x := clientX event; pt_y := clientY event |}
  /\ zoom s' = zoom s /\ isDragging s' = true
  /\ locations s' = locations s.
Proof.
  intros Hnz Hdrag. cbv zeta. unfold handleMouseMove. rewrite Hdrag.
  cbn. split; [field; exact Hnz|]. split; [field; exact Hnz|].
  repeat split. exact Hdrag.
Qed.

Lemma last_cons {A : Type} (a d : A) (l : list A) :
  last (a :: l) d = last l a.
Proof.
  revert a d. induction l as [|b l IH]; intros a d; [reflexivity|].
  change (last (a :: b :: l) d) with (last (b :: l) d).
  now rewrite (IH b d), (IH b a).
Qed.

Lemma moves_keep_offset (moves : list MouseEvent) (s : State) :
  ~ zoom s == 0 ->
  isDragging s = true ->
  let s' := fold_left (fun st e => handleMouseMove e st) moves s in
  let final := last moves {| clientX := pt_x (dragStart s);
                             clientY := pt_y (dragStart s) |} in
  pt_x (panOffset s') * zoom s - clientX final
  == pt_x (panOffset s) * zoom s - pt_x (dragStart s)
  /\ pt_y (panOffset s') * zoom s - clientY final
     == pt_y (panOffset s) * zoom s - pt_y (dragStart s)
  /\ zoom s' = zoom s /\ locations s' = locations s.
Proof.
  revert s. induction moves as [|e moves IH]; intros s Hnz Hdrag.
  - cbn. repeat split; reflexivity.
  - cbv zeta. cbn [fold_left]. destruct e as [ex ey].
    destruct (move_keeps_offset {| clientX := ex; clientY := ey |} s Hnz Hdrag)
      as [Hx [Hy [Hds [Hz [Hd Hl]]]]].
    cbv zeta in Hx, Hy, Hds, Hz, Hd, Hl.
    set (s1 := handleMouseMove {| clientX := ex; clientY := ey |} s) in *.
    assert (Hnz' : ~ zoom s1 == 0) by now rewrite Hz.
    destruct (IH s1 Hnz' Hd) as [Ix [Iy [Iz Il]]].
    cbv zeta in Ix, Iy, Iz, Il.
    rewrite Hds in Ix, Iy, Hx, Hy. cbn [pt_x pt_y clientX clientY] in *.
    rewrite Hz in Ix, Iy. rewrite last_cons.
    split; [etransitivity; [exact Ix | exact Hx]|].
    split; [etransitivity; [exact Iy | exact Hy]|].
    split; congruence.
Qed.

Lemma drag_offset (rect : DOMRect) (down : MouseEvent)
    (moves : list MouseEvent) (s : State) :
  0 < zoom s ->
  isAddingLocation s = false ->
  let s' := fold_left (fun st e => handleMouseMove e st) moves
              (handleMouseDown down s) in
  let final := last moves down in
  pt_x (clickedPoint rect final s') == pt_x (clickedPoint rect down s)
  /\ pt_y (clickedPoint rect final s') == pt_y (clickedPoint rect down s)
  /\ locations s' = locations s.
Proof.
  intros Hz Hadd. cbv zeta.
  assert (Hnz : ~ zoom s == 0) by (intro H0; rewrite H0 in Hz; lra).
  assert (Hdown : handleMouseDown down s
                  = setDragStart {| pt_x := clientX down; pt_y := clientY down |}
                      (setIsDragging true s))
    by (unfold handleMouseDown; now rewrite Hadd).
  rewrite Hdown.
  set (s1 := setDragStart _ _).
  destruct (moves_keep_offset moves s1 Hnz eq_refl) as [Hx [Hy [Hzoom Hl]]].
  cbv zeta in Hx, Hy, Hzoom, Hl.
  change (zoom s1) with (zoom s) in *.
  change (panOffset s1) with (panOffset s) in *.
  change (dragStart s1) with {| pt_x := clientX down; pt_y := clientY down |}
    in *.
  cbn [pt_x pt_y] in Hx, Hy.
  assert (Hd : {| clientX := clientX down; clientY := clientY down |} = down)
    by now destruct down.
  rewrite Hd in Hx, Hy.
  unfold clickedPoint. cbn [pt_x pt_y]. rewrite Hzoom.
  split; [|split; [|exact Hl]].
  - apply (Qmult_inj_r _ _ (zoom s) Hnz). field_simplify; [|exact Hnz..].
    lra.
  - apply (Qmult_inj_r _ _ (zoom s) Hnz). field_simplify; [|exact Hnz..].
    lra.
Qed.

(** X6: dragging keeps the grabbed map point under the cursor.  With a
    positive zoom and outside the adding mode, after a mouse down and any
    number of mouse moves, each handled after the render that follows the
    event before it, the map point under the last cursor position is the map
    point that was under the cursor at the mouse down, to within a thousandth
    of a unit on each axis.  The locations are not touched. *)
Theorem drag_keeps_the_grabbed_point (rect : DOMRect) (down : MouseEvent)
    (moves : list MouseEvent) (s : State) :
  0 < zoom s ->
  isAddingLocation s = false ->
  let s' := fold_left (fun st e => handleMouseMove e st) moves
              (handleMouseDown down s) in
  let final := last moves down in
  let grabbed := clickedPoint rect down s in
  let under := clickedPoint rect final s' in
  (- (1 # 1000) <= pt_x under - pt_x grabbed
   /\ pt_x under - pt_x grabbed <= 1 # 1000)
  /\ (- (1 # 1000) <= pt_y under - pt_y grabbed
      /\ pt_y under - pt_y grabbed <= 1 # 1000)
  /\ locations s' = locations s.
Proof.
  intros Hz Hadd. cbv zeta.
  destruct (drag_offset rect down moves s Hz Hadd) as [Hx [Hy Hl]].
  cbv zeta in Hx, Hy, Hl.
  split; [rewrite Hx; split; lra|]. split; [rewrite Hy; split; lra|].
  exact Hl.
Qed.

Lemma drag_keeps_the_grabbed_point_witness :
  let rect := {| rect_left := 10; rect_top := 20 |} in
  let down := {| clientX := 100; clientY := 100 |} in
  let moves := [{| clientX := 130; clientY := 90 |};
                {| clientX := 170; clientY := 60 |}] in
  let s' := fold_left (fun st e => handleMouseMove e st) moves
              (handleMouseDown down (zoomIn initialState)) in
  let grabbed := clickedPoint rect down (zoomIn initialState) in
  let under := clickedPoint rect {| clientX := 170; clientY := 60 |} s' in
  0 < zoom (zoomIn initialState)
  /\ isAddingLocation (zoomIn initialState) = false
  /\ (- (1 # 1000) <= pt_x under - pt_x grabbed
      /\ pt_x under - pt_x grabbed <= 1 # 1000).
Proof.
  cbv zeta.
  assert (Hz : 0 < zoom (zoomIn initialState)) by reflexivity.
  split; [exact Hz|]. split; [reflexivity|].
  exact (proj1 (drag_keeps_the_grabbed_point
                  {| rect_left := 10; rect_top := 20 |}
                  {| clientX := 100; clientY := 100 |}
                  [{| clientX := 130; clientY := 90 |};
                   {| clientX := 170; clientY := 60 |}]
                  (zoomIn initialState) Hz eq_refl)).
Defined.

(** The actions the pointer makes on the canvas. *)
Definition pointerAction (a : Action) : bool :=
  match a with
  | CanvasClick _ _ | MouseDown _ | MouseMove _ | MouseUp => true
  | _ => false
  end.

(** X7: while a location is being added, the canvas cannot be panned: from a
    state in the adding mode with no drag going on, clicks, mouse downs,
    moves and ups leave the pan offset, the zoom, the locations and the
    selection as they are. *)
Theorem no_panning_while_adding (toLowerCase : JsString -> JsString)
    (random : nat -> Q) (now : nat -> N) (actions : list Action) (s : State) :
  isAddingLocation s = true ->
  isDragging s = false ->
  forallb pointerAction actions = true ->
  let s' := run toLowerCase random now actions s in
  panOffset s' = panOffset s /\ zoom s' = zoom s
  /\ locations s' = locations s
  /\ selectedLocation s' = selectedLocation s.
Proof.
  intros Hadd Hdrag Hall. cbv zeta.
  revert s Hadd Hdrag.
  induction actions as [|a actions IH]; intros s Hadd Hdrag; [cbn; auto|].
  cbn [forallb] in Hall. apply andb_true_iff in Hall. destruct Hall as [Ha Hall].
  unfold run. cbn [fold_left].
  assert (Hs : panOffset (step toLowerCase random now s a) = panOffset s
               /\ zoom (step toLowerCase random now s a) = zoom s
               /\ locations (step toLowerCase random now s a) = locations s
               /\ selectedLocation (step toLowerCase random now s a)
                  = selectedLocation s
               /\ isDragging (step toLowerCase random now s a) = false
               /\ isAddingLocation (step toLowerCase random now s a) = true).
  { destruct a; try discriminate Ha; cbn [step].
    - unfold handleCanvasClick. destruct canvas; [|auto 10].
      rewrite Hadd. cbn. auto 10.
    - unfold handleMouseDown. rewrite Hadd. auto 10.
    - unfold handleMouseMove. rewrite Hdrag. cbn. auto 10.
    - cbn. auto 10. }
  destruct Hs as [Hp [Hz [Hl [Hsel [Hd Hadd']]]]].
  destruct (IH Hall _ Hadd' Hd) as [Ip [Iz [Il Is]]].
  unfold run in *. rewrite Ip, Iz, Il, Is. auto.
Qed.

Lemma no_panning_while_adding_witness :
  let s := setIsAddingLocation true initialState in
  let actions := [MouseDown {| clientX := 5; clientY := 5 |};
                  MouseMove {| clientX := 50; clientY := 60 |};
                  MouseUp] in
  isAddingLocation s = true /\ isDragging s = false
  /\ panOffset (run (fun t => t) (rnd_const 0) (fun _ => 0%N) actions s)
     = panOffset s.
Proof.
  cbv zeta. split; [reflexivity|]. split; [reflexivity|].
  exact (proj1 (no_panning_while_adding (fun t => t) (rnd_const 0)
                  (fun _ => 0%N)
                  [MouseDown {| clientX := 5; clientY := 5 |};
                   MouseMove {| clientX := 50; clientY := 60 |};
                   MouseUp]
                  (setIsAddingLocation true initialState)
                  eq_refl eq_refl eq_refl)).
Defined.

(** ** Editing the list of locations *)

Lemma trimStart_blank (s : JsString) :
  forallb isWhiteSpace s = true -> trimStart s = [].
Proof.
  induction s as [|c s IH]; [reflexivity|].
  cbn [forallb trimStart]. intro H. apply andb_true_iff in H.
  destruct H as [Hc Hs]. rewrite Hc. now apply IH.
Qed.

Lemma trimStart_not_blank (s : JsString) :
  forallb isWhiteSpace s = false ->
  truthy (trimStart s) = true /\ forallb isWhiteSpace (trimStart s) = false.
Proof.
  induction s as [|c s IH]; [discriminate|].
  cbn [forallb trimStart]. intro H.
  destruct (isWhiteSpace c) eqn:Hc.
  - now apply IH.
  - cbn [truthy forallb]. now rewrite Hc.
Qed.

Lemma forallb_rev {A : Type} (f : A -> bool) (l : list A) :
  forallb f (rev l) = forallb f l.
Proof.
  induction l as [|a l IH]; [reflexivity|].
  cbn [rev forallb]. rewrite forallb_app, IH. cbn. 
  rewrite andb_true_r. apply andb_comm.
Qed.

Lemma truthy_rev (s : JsString) : truthy (rev s) = truthy s.
Proof.
  destruct s as [|c s]; [reflexivity|].
  cbn [rev]. destruct (rev s); reflexivity.
Qed.

(** A name is empty after [trim] exactly when it holds white space only. *)
Lemma truthy_trim (s : JsString) :
  truthy (trim s) = negb (forallb isWhiteSpace s).
Proof.
  unfold trim, trimEnd. rewrite truthy_rev.
  destruct (forallb isWhiteSpace s) eqn:E.
  - now rewrite (trimStart_blank s E).
  - destruct (trimStart_not_blank s E) as [_ Hnb].
    rewrite <- forallb_rev in Hnb.
    now destruct (trimStart_not_blank _ Hnb).
Qed.

(** X8: [addLocation] rejects a name made of white space only (the empty name
    included): the state is unchanged and an error is reported.  Any other
    name appends one visible location with the form's values after the
    existing ones, resets the form and leaves the adding mode. *)
Theorem addLocation_rejects_blank_names (time : N) (s : State) :
  let result := addLocation time s in
  if forallb isWhiteSpace (n_name (newLocation s))
  then result = (s, toast_error "Please enter a location name")
  else locations (fst result)
       = locations s
         ++ [{| l_id := "location-" ++ decimal time;
                l_type := n_type (newLocation s);
                l_name := n_name (newLocation s);
                l_description := n_description (newLocation s);
                l_x := n_x (newLocation s);
                l_y := n_y (newLocation s);
                l_visible := true |}]
       /\ newLocation (fst result) = emptyForm
       /\ isAddingLocation (fst result) = false
       /\ selectedLocation (fst result) = selectedLocation s
       /\ snd result = toast_success "Location added successfully!".
Proof.
  cbv zeta. unfold addLocation. rewrite truthy_trim, negb_involutive.
  destruct (forallb isWhiteSpace (n_name (newLocation s))); [reflexivity|].
  cbn. repeat split.
Qed.

Lemma filter_idempotent {A : Type} (f : A -> bool) (l : list A) :
  filter f (filter f l) = filter f l.
Proof.
  induction l as [|a l IH]; [reflexivity|].
  cbn [filter]. destruct (f a) eqn:E; [|exact IH].
  cbn [filter]. now rewrite E, IH.
Qed.

Lemma filter_removes_id (id : string) (l : list Location) :
  ~ In id (map l_id (filter (fun loc => negb (l_id loc =? id)%string) l)).
Proof.
  intro H. apply in_map_iff in H. destruct H as [loc [Hid Hin]].
  apply filter_In in Hin. destruct Hin as [_ Hne].
  apply negb_true_iff, String.eqb_neq in Hne. congruence.
Qed.

Lemma filter_absent_id (id : string) (l : list Location) :
  ~ In id (map l_id l) ->
  filter (fun loc => negb (l_id loc =? id)%string) l = l.
Proof.
  intro H. apply filter_all. intros loc Hin.
  apply negb_true_iff, String.eqb_neq. intro Heq. apply H.
  rewrite <- Heq. now apply in_map.
Qed.

Lemma deleteLocation_state (id : string) (s : State) :
  fst (deleteLocation id s)
  = setSelectedLocation
      (match selectedLocation s with
       | Some selected =>
           if (l_id selected =? id)%string then None else Some selected
       | None => None
       end)
      (setLocations
         (fun prev => filter (fun loc => negb (l_id loc =? id)%string) prev)
         s).
Proof.
  unfold deleteLocation.
  destruct s as [ms ls sel g ti z po dr ds st ft nl ad]. cbn.
  destruct sel as [sel|]; [destruct (l_id sel =? id)%string|]; reflexivity.
Qed.

(** X9: [deleteLocation] removes every location that carries the id and keeps
    the others in order; afterwards no location and no selection carries the
    id, and deleting the same id again changes nothing.  When the id is not
    in the list the locations are unchanged.  The toast reports a deletion
    in every case. *)
Theorem deleteLocation_removes_the_id (id : string) (s : State) :
  let s' := fst (deleteLocation id s) in
  ~ In id (map l_id (locations s'))
  /\ locations s'
     = filter (fun loc => negb (l_id loc =? id)%string) (locations s)
  /\ match selectedLocation s' with
     | Some selected => l_id selected <> id /\ selectedLocation s = Some selected
     | None => True
     end
  /\ fst (deleteLocation id s') = s'
  /\ (if existsb (fun loc => (l_id loc =? id)%string) (locations s)
      then (List.length (locations s') < List.length (locations s))%nat
      else locations s' = locations s)
  /\ snd (deleteLocation id s) = toast_success "Location deleted".
Proof.
  cbv zeta.
  assert (Hloc : locations (fst (deleteLocation id s))
                 = filter (fun loc => negb (l_id loc =? id)%string)
                          (locations s)).
  { unfold deleteLocation. destruct (selectedLocation s) as [sel|];
      [destruct (l_id sel =? id)%string|]; reflexivity. }
  split; [rewrite Hloc; apply filter_removes_id|].
  split; [exact Hloc|].
  split; [|split; [|split; [|reflexivity]]].
  - unfold deleteLocation. destruct (selectedLocation s) as [sel|] eqn:E.
    + destruct (String.eqb_spec (l_id sel) id) as [Heq|Hne]; cbn; [exact I|].
      rewrite E. now split.
    + cbn. now rewrite E.
  - rewrite !deleteLocation_state.
    destruct s as [ms ls sel g ti z po dr ds st ft nl ad].
    unfold setSelectedLocation, setLocations. cbn. f_equal.
    + apply filter_idempotent.
    + destruct sel as [sel|]; [|reflexivity].
      destruct (l_id sel =? id)%string eqn:E; [reflexivity|]. now rewrite E.
  - rewrite Hloc.
    destruct (existsb _ (locations s)) eqn:E.
    + apply existsb_exists in E. destruct E as [loc [Hin Hid]].
      clear Hloc. induction (locations s) as [|a l IH]; [destruct Hin|].
      cbn [filter List.length].
      destruct (l_id a =? id)%string eqn:Ea; cbn [negb List.length].
      * pose proof (filter_length_le
                      (fun loc => negb (l_id loc =? id)%string) l). lia.
      * destruct Hin as [->|Hin]; [congruence|].
        specialize (IH Hin). lia.
    + apply filter_all. intros loc Hin.
      apply negb_true_iff.
      destruct (l_id loc =? id)%string eqn:Ea; [|reflexivity].
      assert (Hex : existsb (fun loc => (l_id loc =? id)%string) (locations s)
                    = true)
        by (apply existsb_exists; now exists loc).
      congruence.
Qed.

(** X10: toggling the visibility of an id twice restores the state; one toggle
    flips the flag of the locations with that id and changes nothing else of
    any location: ids, order and positions stay. *)
Theorem toggleLocationVisibility_is_an_involution (id : string) (s : State) :
  toggleLocationVisibility id (toggleLocationVisibility id s) = s
  /\ map l_id (locations (toggleLocationVisibility id s))
     = map l_id (locations s)
  /\ map engineView (locations (toggleLocationVisibility id s))
     = map engineView (locations s)
  /\ map l_visible (locations (toggleLocationVisibility id s))
     = map (fun loc => if (l_id loc =? id)%string
                       then negb (l_visible loc) else l_visible loc)
           (locations s).
Proof.
  split; [|split; [|split]].
  - destruct s as [ms ls sel g ti z po dr ds st ft nl ad].
    unfold toggleLocationVisibility, setLocations. cbn. f_equal.
    rewrite map_map. rewrite <- (map_id ls) at 2. apply map_ext.
    intros [i t n d x y v]. cbn.
    destruct (i =? id)%string eqn:E; cbn; [|now rewrite E].
    now rewrite E, negb_involutive.
  - apply toggle_ids.
  - cbn. rewrite map_map. apply map_ext. intro loc.
    now destruct (l_id loc =? id)%string.
  - cbn. rewrite map_map. apply map_ext. intro loc.
    now destruct (l_id loc =? id)%string.
Qed.

(** X11: Edit Selected followed by Add Location at clock reading [time],
    for a selected location whose name is not blank: every location with the
    selected id is removed and one location with the selected type, name,
    description and position is appended at the end, with the id
    [location-<time>] and visible even if the selected one was hidden;
    nothing is selected afterwards. *)
Theorem edit_then_add_replaces_the_selected (time : N) (s : State)
    (selected : Location) :
  selectedLocation s = Some selected ->
  forallb isWhiteSpace (l_name selected) = false ->
  let s' := fst (addLocation time (editSelected s)) in
  locations s'
  = filter (fun loc => negb (l_id loc =? l_id selected)%string) (locations s)
    ++ [{| l_id := "location-" ++ decimal time;
           l_type := l_type selected;
           l_name := l_name selected;
           l_description := l_description selected;
           l_x := l_x selected;
           l_y := l_y selected;
           l_visible := true |}]
  /\ selectedLocation s' = None
  /\ isAddingLocation s' = false
  /\ newLocation s' = emptyForm.
Proof.
  intros Hsel Hname. cbv zeta. rewrite (editSelected_run s selected Hsel).
  unfold addLocation.
  cbn [newLocation setSelectedLocation setLocations setIsAddingLocation
       setNewLocation n_name].
  rewrite truthy_trim, Hname. cbn. repeat split.
Qed.

Lemma edit_then_add_replaces_the_selected_witness :
  let hidden := {| l_id := "location-1"; l_type := "shop"; l_name := [65%N];
                   l_description := []; l_x := 100; l_y := 100;
                   l_visible := false |} in
  let s := setSelectedLocation (Some hidden)
             (setLocations (fun _ => [hidden]) initialState) in
  selectedLocation s = Some hidden
  /\ forallb isWhiteSpace (l_name hidden) = false
  /\ map l_visible (locations (fst (addLocation 2 (editSelected s)))) = [true].
Proof.
  cbv zeta. split; [reflexivity|]. split; [reflexivity|].
  pose proof (edit_then_add_replaces_the_selected 2
                (setSelectedLocation
                   (Some {| l_id := "location-1"; l_type := "shop";
                            l_name := [65%N]; l_description := [];
                            l_x := 100; l_y := 100; l_visible := false |})
                   (setLocations
                      (fun _ => [{| l_id := "location-1"; l_type := "shop";
                                    l_name := [65%N]; l_description := [];
                                    l_x := 100; l_y := 100;
                                    l_visible := false |}]) initialState))
                _ eq_refl eq_refl) as [H _].
  cbv zeta in H. rewrite H. reflexivity.
Defined.

(** ** Generating a batch of locations *)

Section Batch.

Variable random : nat -> Q.
Variable now : nat -> N.

(** The id given to item [index] of a batch. *)
Definition generatedId (index : nat) : string :=
  "generated-" ++ decimal (now index) ++ "-" ++ decimal (N.of_nat index).

(** The location built for an item from its placement. *)
Definition generatedLocation (item : GeneratedItem) (index : nat)
    (placement : Placement) : Location :=
  {| l_id := generatedId index;
     l_type := g_type item;
     l_name := g_name item;
     l_description := g_description item;
     l_x := p_x placement;
     l_y := p_y placement;
     l_visible := true |}.

(** Every location a batch builds is the placement the selector returns,
    from some cursor, against the existing locations and the locations built
    before it in the batch. *)
Lemma placeEach_trace (items : list GeneratedItem) (index : nat)
    (existingLocations newLocations : list Location)
    (terrainAnalysis : TerrainAnalysis) (settings : MapSettings) (c : nat) :
  exists built c',
    placeEach random now items index existingLocations newLocations
              terrainAnalysis settings c = (newLocations ++ built, c')
    /\ map l_id built = map generatedId (seq index (List.length items))
    /\ map l_type built = map g_type items
    /\ map l_name built = map g_name items
    /\ map l_description built = map g_description items
    /\ map l_visible built = map (fun _ => true) items
    /\ forall before loc after,
         built = before ++ loc :: after ->
         exists item ci,
           nth_error items (List.length before) = Some item
           /\ loc = generatedLocation item (index + List.length before)
                      (fst (findOptimalPlacement random (g_type item)
                              (map engineView
                                   (existingLocations ++ newLocations ++ before))
                              terrainAnalysis settings ci)).
Proof.
  revert index newLocations c.
  induction items as [|item rest IH]; intros index newLocations c.
  - exists [], c. cbn. rewrite app_nil_r. repeat split.
    intros [|b before] loc after H; discriminate H.
  - cbn [placeEach]. unfold bind at 1.
    destruct (findOptimalPlacement random (g_type item)
                (map engineView (existingLocations ++ newLocations))
                terrainAnalysis settings c) as [placement c1] eqn:Hp.
    fold (generatedId index).
    change {| l_id := generatedId index; l_type := g_type item;
              l_name := g_name item; l_description := g_description item;
              l_x := p_x placement; l_y := p_y placement;
              l_visible := true |}
      with (generatedLocation item index placement).
    destruct (IH (S index) (newLocations ++ [generatedLocation item index
                                               placement]) c1)
      as [built [c' [Hrun [Hid [Hty [Hn [Hd [Hv Htrace]]]]]]]].
    exists (generatedLocation item index placement :: built), c'.
    rewrite Hrun, <- app_assoc. cbn [app map List.length seq].
    rewrite Hid, Hty, Hn, Hd, Hv.
    repeat split.
    intros [|b before] loc after H.
    + cbn in H. inversion H; subst loc after.
      exists item, c. cbn [nth_error List.length]. split; [reflexivity|].
      rewrite Nat.add_0_r, app_nil_r, Hp. reflexivity.
    + cbn in H. inversion H as [[Hb Hbuilt]].
      destruct (Htrace before loc after Hbuilt) as [it [ci [Hnth Hloc]]].
      exists it, ci. cbn [nth_error List.length]. split; [exact Hnth|].
      rewrite Hloc. f_equal; [lia|].
      now rewrite <- !app_assoc.
Qed.

(** The locations of the state after a successful generation, with the
    analysis the batch ran on. *)
Lemma generateLocations_run (items : list GeneratedItem) (s : State)
    (c : nat) :
  let analysis := analyzeTerrainForPlacement random (terrainPixels s)
                    (mapSettings s) c in
  exists c',
    locations (fst (fst (generateLocations random now (Some items) s c)))
    = locations s
      ++ fst (placeEach random now items 0 (locations s) [] (fst analysis)
                (mapSettings s) (snd analysis))
    /\ c' = snd (generateLocations random now (Some items) s c).
Proof.
  cbv zeta. unfold generateLocations, bind, ret.
  destruct (analyzeTerrainForPlacement random (terrainPixels s)
              (mapSettings s) c) as [analysis c1].
  cbn [fst snd].
  destruct (placeEach random now items 0 (locations s) [] analysis
              (mapSettings s) c1) as [newLocations c2].
  cbn. now exists c2.
Qed.

(** X12: a generation that succeeds appends one visible location per item of the
    answer, in the answer's order and with each item's type, name and
    description, after the locations already there; the selection and the
    view are not touched. *)
Theorem generateLocations_appends_one_location_per_item
    (items : list GeneratedItem) (s : State) (c : nat) :
  let s' := fst (fst (generateLocations random now (Some items) s c)) in
  exists newLocations,
    locations s' = locations s ++ newLocations
    /\ map l_type newLocations = map g_type items
    /\ map l_name newLocations = map g_name items
    /\ map l_description newLocations = map g_description items
    /\ Forall (fun l => l_visible l = true) newLocations
    /\ List.length newLocations = List.length items
    /\ selectedLocation s' = selectedLocation s
    /\ zoom s' = zoom s /\ mapSettings s' = mapSettings s.
Proof.
  cbv zeta.
  destruct (generateLocations_run items s c) as [c' [Hloc _]].
  cbv zeta in Hloc.
  set (analysis := analyzeTerrainForPlacement random (terrainPixels s)
                     (mapSettings s) c) in *.
  destruct (placeEach_trace items 0 (locations s) [] (fst analysis)
              (mapSettings s) (snd analysis))
    as [built [c2 [Hrun [Hid [Hty [Hn [Hd [Hv _]]]]]]]].
  rewrite Hrun in Hloc. cbn [fst app] in Hloc.
  exists built. split; [exact Hloc|].
  split; [exact Hty|]. split; [exact Hn|]. split; [exact Hd|].
  split.
  { apply Forall_forall. intros l Hl.
    apply (in_map l_visible) in Hl. rewrite Hv in Hl.
    apply in_map_iff in Hl. now destruct Hl as [_ [Ht _]]. }
  split.
  { rewrite <- (length_map l_type built), Hty. apply length_map. }
  destruct (generateLocations_frame random now (Some items) s c)
    as [Hz [Hm [Hs _]]].
  auto.
Qed.

(** X13: on a map at least 100 wide and high, with draws in [0, 1), every
    location a generation adds lies within the margin of 50 of the map. *)
Theorem generated_locations_within_margin (items : list GeneratedItem)
    (s : State) (c : nat) :
  unitStream random ->
  (100 <= width (mapSettings s))%Z -> (100 <= height (mapSettings s))%Z ->
  let s' := fst (fst (generateLocations random now (Some items) s c)) in
  exists newLocations,
    locations s' = locations s ++ newLocations
    /\ Forall (fun l => inBounds (mapSettings s)
                                 {| p_x := l_x l; p_y := l_y l |})
              newLocations.
Proof.
  intros Hunit Hw Hh. cbv zeta.
  destruct (generateLocations_run items s c) as [c' [Hloc _]].
  cbv zeta in Hloc.
  set (analysis := analyzeTerrainForPlacement random (terrainPixels s)
                     (mapSettings s) c) in *.
  destruct (placeEach_trace items 0 (locations s) [] (fst analysis)
              (mapSettings s) (snd analysis))
    as [built [c2 [Hrun [_ [_ [_ [_ [_ Htrace]]]]]]]].
  rewrite Hrun in Hloc. cbn [fst app] in Hloc.
  exists built. split; [exact Hloc|].
  apply Forall_forall. intros l Hl.
  apply in_split in Hl. destruct Hl as [before [after Heq]].
  destruct (Htrace before l after Heq) as [item [ci [_ ->]]].
  cbn [generatedLocation l_x l_y].
  pose proof (selector_inBounds random (g_type item)
                (map engineView (locations s ++ [] ++ before))
                (fst analysis) (mapSettings s) ci Hunit Hw Hh) as Hin.
  destruct (fst (findOptimalPlacement random (g_type item) _ _ _ ci)).
  exact Hin.
Qed.

(** X14: when the analysis yields no suitable area (as without a terrain
    image), every location a generation adds keeps its distance from every
    location that was there before and from every location added earlier in
    the batch (squared distance at least 6399, that is 80 up to rounding),
    unless fifty consecutive pairs of draws all gave points close to one of
    them (squared distance at most 6401). *)
Theorem generated_locations_keep_their_distance (items : list GeneratedItem)
    (s : State) (c : nat) (before : list Location) (loc : Location)
    (after : list Location) :
  suitableAreas (fst (analyzeTerrainForPlacement random (terrainPixels s)
                        (mapSettings s) c)) = [] ->
  locations (fst (fst (generateLocations random now (Some items) s c)))
  = locations s ++ before ++ loc :: after ->
  Forall (fun earlier =>
            6399 <= distanceSq (l_x earlier) (l_y earlier) (l_x loc) (l_y loc))
         (locations s ++ before)
  \/ exists k,
       allAttempts nearlyWithin80 random
                   (map engineView (locations s ++ before))
                   (mapSettings s) k = true.
Proof.
  intros Hempty Hsplit.
  destruct (generateLocations_run items s c) as [c' [Hloc _]].
  cbv zeta in Hloc.
  set (analysis := analyzeTerrainForPlacement random (terrainPixels s)
                     (mapSettings s) c) in *.
  destruct (placeEach_trace items 0 (locations s) [] (fst analysis)
              (mapSettings s) (snd analysis))
    as [built [c2 [Hrun [_ [_ [_ [_ [_ Htrace]]]]]]]].
  rewrite Hrun in Hloc. cbn [fst app] in Hloc.
  rewrite Hloc in Hsplit. apply app_inv_head in Hsplit.
  destruct (Htrace before loc after Hsplit) as [item [ci [_ ->]]].
  cbn [generatedLocation l_x l_y app].
  destruct (selector_random_search random (g_type item)
              (map engineView (locations s ++ before)) (fst analysis)
              (mapSettings s) ci Hempty) as [Hfar|Hex].
  - left. cbv zeta in Hfar. rewrite Forall_map in Hfar. exact Hfar.
  - right. now exists ci.
Qed.

End Batch.

(** The stream 0, 1/4, 1/2, 3/4, 0, ... *)
Definition rnd_cycle : nat -> Q := fun k => Z.of_nat (k mod 4) # 4.

Lemma rnd_cycle_unit : unitStream rnd_cycle.
Proof.
  intro n. unfold rnd_cycle.
  assert (H : (0 <= Z.of_nat (n mod 4) < 4)%Z).
  { pose proof (Nat.mod_upper_bound n 4). lia. }
  unfold Qle, Qlt. cbn [Qnum Qden]. lia.
Qed.

Definition twoItems : list GeneratedItem :=
  [{| g_type := "shop"; g_name := [65%N]; g_description := [] |};
   {| g_type := "npc"; g_name := [66%N]; g_description := [] |}].

Lemma generated_locations_within_margin_witness :
  unitStream rnd_cycle
  /\ (100 <= width (mapSettings initialState))%Z
  /\ (100 <= height (mapSettings initialState))%Z
  /\ exists newLocations,
       locations (fst (fst (generateLocations rnd_cycle (fun _ => 7%N)
                              (Some twoItems) initialState 0%nat)))
       = locations initialState ++ newLocations
       /\ Forall (fun l => inBounds (mapSettings initialState)
                                    {| p_x := l_x l; p_y := l_y l |})
                 newLocations.
Proof.
  assert (Hw : (100 <= width (mapSettings initialState))%Z) by (cbn; lia).
  assert (Hh : (100 <= height (mapSettings initialState))%Z) by (cbn; lia).
  split; [exact rnd_cycle_unit|]. split; [exact Hw|]. split; [exact Hh|].
  exact (generated_locations_within_margin rnd_cycle (fun _ => 7%N) twoItems
           initialState 0%nat rnd_cycle_unit Hw Hh).
Defined.

Lemma generated_locations_keep_their_distance_witness :
  let made := locations (fst (fst (generateLocations rnd_cycle (fun _ => 7%N)
                                     (Some twoItems) initialState 0%nat))) in
  let before := firstn 1 made in
  let loc := nth 1 made {| l_id := ""; l_type := ""; l_name := [];
                           l_description := []; l_x := 0; l_y := 0;
                           l_visible := false |} in
  suitableAreas (fst (analyzeTerrainForPlacement rnd_cycle
                        (terrainPixels initialState)
                        (mapSettings initialState) 0%nat)) = []
  /\ made = locations initialState ++ before ++ loc :: []
  /\ (Forall (fun earlier =>
                6399 <= distanceSq (l_x earlier) (l_y earlier)
                                   (l_x loc) (l_y loc))
             (locations initialState ++ before)
      \/ exists k,
           allAttempts nearlyWithin80 rnd_cycle
             (map engineView (locations initialState ++ before))
             (mapSettings initialState) k = true).
Proof.
  cbv zeta.
  assert (Hempty : suitableAreas
                     (fst (analyzeTerrainForPlacement rnd_cycle
                             (terrainPixels initialState)
                             (mapSettings initialState) 0%nat)) = [])
    by reflexivity.
  assert (Hsplit :
            locations (fst (fst (generateLocations rnd_cycle (fun _ => 7%N)
                                   (Some twoItems) initialState 0%nat)))
            = locations initialState
              ++ firstn 1 (locations
                             (fst (fst (generateLocations rnd_cycle
                                          (fun _ => 7%N) (Some twoItems)
                                          initialState 0%nat))))
              ++ nth 1 (locations
                          (fst (fst (generateLocations rnd_cycle
                                       (fun _ => 7%N) (Some twoItems)
                                       initialState 0%nat))))
                   {| l_id := ""; l_type := ""; l_name := [];
                      l_description := []; l_x := 0; l_y := 0;
                      l_visible := false |}
                 :: [])
    by (vm_compute; reflexivity).
  split; [exact Hempty|]. split; [exact Hsplit|].
  exact (generated_locations_keep_their_distance rnd_cycle (fun _ => 7%N)
           twoItems initialState 0%nat _ _ _ Hempty Hsplit).
Defined.

(** ** Ids *)

Fixpoint hasDash (s : string) : bool :=
  match s with
  | EmptyString => false
  | String c s' => (c =? "-")%char || hasDash s'
  end.

Lemma string_of_uint_no_dash (d : Decimal.uint) :
  hasDash (NilEmpty.string_of_uint d) = false.
Proof. induction d; cbn; auto. Qed.

Lemma decimal_no_dash (n : N) : hasDash (decimal n) = false.
Proof. apply string_of_uint_no_dash. Qed.

Lemma decimal_injective (a b : N) : decimal a = decimal b -> a = b.
Proof.
  unfold decimal. intro H.
  apply DecimalN.Unsigned.to_uint_inj.
  assert (Hs : Some (N.to_uint a) = Some (N.to_uint b)).
  { rewrite <- (NilEmpty.usu (N.to_uint a)), <- (NilEmpty.usu (N.to_uint b)).
    now rewrite H. }
  now inversion Hs.
Qed.

(** Two texts without a dash, each followed by a dash and a rest, are equal
    only when the texts and the rests are. *)
Lemma split_at_dash (a a' b b' : string) :
  hasDash a = false -> hasDash a' = false ->
  (a ++ String "-" b = a' ++ String "-" b')%string ->
  a = a' /\ b = b'.
Proof.
  revert a'. induction a as [|c a IH]; intros [|c' a'] Ha Ha' H; cbn in *.
  - inversion H. now split.
  - inversion H; subst c'. now rewrite Ascii.eqb_refl in Ha'.
  - inversion H; subst c. now rewrite Ascii.eqb_refl in Ha.
  - inversion H; subst c'.
    apply orb_false_iff in Ha. apply orb_false_iff in Ha'.
    destruct (IH a' (proj2 Ha) (proj2 Ha') H2) as [-> ->]. now split.
Qed.

Lemma generatedId_injective (now : nat -> N) :
  Injective (generatedId now).
Proof.
  intros i j H. unfold generatedId in H.
  cbn [append] in H. inversion H as [H'].
  apply split_at_dash in H'; try apply decimal_no_dash.
  destruct H' as [_ Hd]. apply decimal_injective in Hd.
  now apply Nat2N.inj.
Qed.

(** X15: the locations generated in one batch get pairwise distinct ids,
    whatever the clock reads, and none of them can be the id of a location
    added by hand. *)
Theorem generated_ids_are_distinct (random : nat -> Q) (now : nat -> N)
    (items : list GeneratedItem) (s : State) (c : nat) :
  let s' := fst (fst (generateLocations random now (Some items) s c)) in
  exists newLocations,
    locations s' = locations s ++ newLocations
    /\ NoDup (map l_id newLocations)
    /\ Forall (fun l => forall time : N,
                 l_id l <> ("location-" ++ decimal time)%string)
              newLocations.
Proof.
  cbv zeta.
  destruct (generateLocations_run random now items s c) as [c' [Hloc _]].
  cbv zeta in Hloc.
  set (analysis := analyzeTerrainForPlacement random (terrainPixels s)
                     (mapSettings s) c) in *.
  destruct (placeEach_trace random now items 0 (locations s) [] (fst analysis)
              (mapSettings s) (snd analysis))
    as [built [c2 [Hrun [Hid _]]]].
  rewrite Hrun in Hloc. cbn [fst app] in Hloc.
  exists built. split; [exact Hloc|]. split.
  - rewrite Hid. apply Injective_map_NoDup;
      [apply generatedId_injective | apply seq_NoDup].
  - apply Forall_forall. intros l Hl time Heq.
    apply (in_map l_id) in Hl. rewrite Hid in Hl.
    apply in_map_iff in Hl. destruct Hl as [i [Hi _]].
    rewrite <- Hi in Heq. unfold generatedId in Heq. discriminate Heq.
Qed.

(** ** The location list *)

Lemma includes_empty (s : JsString) : includes s [] = true.
Proof. destruct s; reflexivity. Qed.

(** X16: with an empty search box and the type filter on "all", the location list
    shows every location, in order; [toLowerCase] maps the empty string to
    itself. *)
Theorem default_filter_lists_every_location
    (toLowerCase : JsString -> JsString) (s : State) :
  toLowerCase [] = [] ->
  searchTerm s = [] ->
  filterType s = "all"%string ->
  filteredLocations toLowerCase s = locations s.
Proof.
  intros Hlower Hsearch Hfilter. unfold filteredLocations.
  apply filter_all. intros l _.
  unfold matchesSearch, matchesFilter.
  now rewrite Hsearch, Hlower, includes_empty, Hfilter.
Qed.

(** Lower case of the letters A to Z, other code units kept. *)
Definition asciiLower (s : JsString) : JsString :=
  map (fun c => if ((65 <=? c) && (c <=? 90))%N then (c + 32)%N else c) s.

Lemma default_filter_lists_every_location_witness :
  let l := {| l_id := "location-1"; l_type := "shop"; l_name := [65%N];
              l_description := []; l_x := 100; l_y := 100;
              l_visible := true |} in
  let s := setLocations (fun _ => [l]) initialState in
  asciiLower [] = [] /\ searchTerm s = [] /\ filterType s = "all"%string
  /\ filteredLocations asciiLower s = [l].
Proof.
  cbv zeta. split; [reflexivity|]. split; [reflexivity|].
  split; [reflexivity|].
  exact (default_filter_lists_every_location asciiLower
           (setLocations
              (fun _ => [{| l_id := "location-1"; l_type := "shop";
                            l_name := [65%N]; l_description := [];
                            l_x := 100; l_y := 100; l_visible := true |}])
              initialState) eq_refl eq_refl eq_refl).
Defined.

End DashboardFacts.
